(** * Order placement of MAG_web ([src/app.py], [create_order])

    A shallow embedding of the [POST /api/orders] handler together with the
    part of the data model it touches ([Item], [Customer], [Order],
    [OrderItem]), and the properties of the order-placement service.

    Conventions of the embedding.
    - The request body is decoded JSON.  A key of a JSON object is [Absent],
      present with value [Null], or present with a value ([Val]); Python's
      [d.get(k)], [d.get(k, default)], [k in d] and truthiness are written
      out on that type.
    - Identifiers and quantities are Python integers ([Z]).  Monetary amounts
      (line prices, order totals) are kept abstract behind the class
      [Money]: the handler only multiplies a price by a quantity, adds the
      product to a running total and tests a price for truthiness, and the
      [db.Float] columns keep of an amount what their type can hold
      ([m_store]); nothing below depends on how amounts are represented.
      [Z] is the instance used for concrete runs, with the rounding of a
      binary64 float.
    - The SQLAlchemy session is a pair of database snapshots: what is
      committed and what the running transaction sees.  [commit] publishes
      the second, [rollback] discards it.  ORM objects are references into
      the transaction's snapshot (an item by primary key, a customer by its
      row position), so two line items naming one item share its stock.
    - Every storage interaction may raise; which ones do is an input of the
      model ([faults]).  A row is written into the snapshot as the INSERT
      stores it: a column default in place of [None], a [db.Float] amount
      rounded.  An auto-increment key is one more than the largest
      key of its table.  Timestamps ([created_at], [order_date],
      [updated_at]) and catalogue columns the handler never reads are left
      out.
    - The handler is written in a small monad of its own, [M]: a statement
      runs in the session and falls through, returns a response, or raises.
      [create_order] is the handler on an open session; [post_orders] runs
      it for one request on a database and gives what is committed.

    The file has three parts: the model, the notions the service is
    specified against together with the closed forms of its writes, and
    the proofs, which go on with one section per property of the
    specification (C1 to C10).

    Next to [create_order] the model holds the handlers that read an order
    back and change its status ([get_order], [update_order_status]), the
    admin accounts ([admin_register], [admin_login_api]) and the test on
    the names of uploaded files ([allowed_file]), each with its
    conventions where it is defined.  The proofs end with further
    properties of these handlers and of [create_order] (X1 to X30). *)

From stdpp Require Import gmap strings list fin_maps.
From Stdlib Require Import Ascii.

Open Scope Z_scope.

(** ** Amounts of money *)

Class Money (A : Type) := {
  m_zero : A;               (* total_amount = 0 *)
  m_add : A → A → A;        (* total_amount += ... *)
  m_mul : A → Z → A;        (* price * quantity *)
  m_bool : A → bool;        (* bool(price) *)
  m_store : A → A;          (* what a [db.Float] column keeps of a value *)
}.

(** The integer [n] as a [db.Float] column of SQLite and a Python [float]
    keep it: the nearest binary64 number, ties to the even significand.
    Integers below 2^53 are kept as they are.  (A column of fewer bits,
    such as MySQL's FLOAT, rounds more; a value beyond the range of the
    type makes the storage raise.) *)
Definition float_column (n : Z) : Z :=
  let a := Z.abs n in
  if a <? 2 ^ 53 then n
  else
    let e := Z.log2 a - 52 in
    let q := a / 2 ^ e in
    let r := a mod 2 ^ e in
    let q' := if r <? 2 ^ (e - 1) then q
              else if 2 ^ (e - 1) <? r then q + 1
              else if Z.even q then q else q + 1 in
    Z.sgn n * (q' * 2 ^ e).

#[global] Instance Z_Money : Money Z := {|
  m_zero := 0;
  m_add := Z.add;
  m_mul := Z.mul;
  m_bool := λ p, negb (p =? 0);
  m_store := float_column;
|}.

(** ** Decoded JSON objects *)

Inductive field (T : Type) : Type :=
  | Absent
  | Null
  | Val (v : T).
Global Arguments Absent {T}.
Global Arguments Null {T}.
Global Arguments Val {T} v.

(** [k in d] *)
Definition contains {T} (f : field T) : bool :=
  match f with Absent => false | _ => true end.

(** [d[k]] once [k in d] holds, and [d.get(k)]: Python's [None] is [None]. *)
Definition get {T} (f : field T) : option T :=
  match f with Val v => Some v | _ => None end.

(** [d.get(k, default)] *)
Definition get_or {T} (f : field T) (default : T) : option T :=
  match f with Absent => Some default | Null => None | Val v => Some v end.

(** Truthiness.  [truthy v] is [Some x] when the Python value [v] is the
    truthy value [x], and [None] when [not v] holds. *)
Class Truthy (T : Type) := py_bool : T → bool.

#[global] Instance Z_Truthy : Truthy Z := λ n, negb (n =? 0).
#[global] Instance string_Truthy : Truthy string :=
  λ s, match s with EmptyString => false | _ => true end.

Definition truthy {T} `{Truthy T} (v : option T) : option T :=
  match v with
  | Some x => if py_bool x then Some x else None
  | None => None
  end.

(** ** The request *)

Module LineItem.
Record t (A : Type) := mk {
  item_id : field Z;
  quantity : field Z;
  price : field A;
}.
Global Arguments mk {A}.
Global Arguments item_id {A}.
Global Arguments quantity {A}.
Global Arguments price {A}.
End LineItem.

Module Request.
Record t (A : Type) := mk {
  customer : field (gmap string (option string));
  items : field (list (LineItem.t A));
  payment_method : field string;
  notes : field string;
  delivery_method : field string;
  store_info : field (gmap string string);
}.
Global Arguments mk {A}.
Global Arguments customer {A}.
Global Arguments items {A}.
Global Arguments payment_method {A}.
Global Arguments notes {A}.
Global Arguments delivery_method {A}.
Global Arguments store_info {A}.

(** [field in data] on the request object. *)
Definition has_key {A} (data : t A) (k : string) : bool :=
  if decide (k = "customer") then contains (customer data)
  else if decide (k = "items") then contains (items data)
  else if decide (k = "payment_method") then contains (payment_method data)
  else if decide (k = "notes") then contains (notes data)
  else if decide (k = "delivery_method") then contains (delivery_method data)
  else if decide (k = "store_info") then contains (store_info data)
  else false.
End Request.

(** ** The tables *)

Module Item.
Record t := mk {
  name : string;
  quantity_left : Z;
  is_active : bool;
}.
End Item.

Module Customer.
Record t := mk {
  id : Z;
  first_name : option string;
  last_name : option string;
  email : option string;
  phone : option string;
  address : option string;
  city : option string;
  postal_code : option string;
  country : option string;
}.
End Customer.

Module Order.
Record t (A : Type) := mk {
  id : Z;
  customer_id : Z;
  total_amount : A;
  status : string;
  delivery_method : option string;
  store_id : option string;
  store_name : option string;
  store_address : option string;
  payment_method : option string;
  notes : option string;
}.
Global Arguments mk {A}.
Global Arguments id {A}.
Global Arguments customer_id {A}.
Global Arguments total_amount {A}.
Global Arguments status {A}.
Global Arguments delivery_method {A}.
Global Arguments store_id {A}.
Global Arguments store_name {A}.
Global Arguments store_address {A}.
Global Arguments payment_method {A}.
Global Arguments notes {A}.
End Order.

Module OrderItem.
Record t (A : Type) := mk {
  id : Z;
  order_id : Z;
  item_id : Z;
  quantity : Z;
  price_at_time : A;
}.
Global Arguments mk {A}.
Global Arguments id {A}.
Global Arguments order_id {A}.
Global Arguments item_id {A}.
Global Arguments quantity {A}.
Global Arguments price_at_time {A}.
End OrderItem.

(** The database: items by primary key, the other tables as their rows in
    insertion order. *)
Module DB.
Record t (A : Type) := mk {
  items : gmap Z Item.t;
  customers : list Customer.t;
  orders : list (Order.t A);
  order_items : list (OrderItem.t A);
}.
Global Arguments mk {A}.
Global Arguments items {A}.
Global Arguments customers {A}.
Global Arguments orders {A}.
Global Arguments order_items {A}.
End DB.

(** The next value of an auto-increment primary key. *)
Definition fresh_id (ids : list Z) : Z := 1 + foldr Z.max 0 ids.

(** ** Session, storage faults, responses *)

Inductive storage_op : Type :=
  | SGet (item_id : Z)      (* db.session.get(Item, item_id) *)
  | SQuery                  (* Customer.query.filter_by(...).first() *)
  | SFlushCustomer          (* db.session.flush() after the upsert *)
  | SFlushOrder             (* db.session.flush() after the order *)
  | SCommit                 (* db.session.commit() *)
  | SRefresh.               (* order.id, reloaded after the commit *)

Inductive Exn : Type :=
  | TypeError               (* an operation applied to None *)
  | KeyError (k : string)   (* d[k] on a dict without k *)
  | StorageError (op : storage_op).

Inductive Error : Type :=
  | MissingField (f : string)
  | MissingCustomerField (f : string)
  | EmptyOrder
  | IncompleteItem
  | ItemNotFound (item_id : Z)
  | ItemInactive (name : string)
  | InsufficientStock (name : string) (left : Z)
  | OrderFailed (e : Exn).

Inductive Response (A : Type) : Type :=
  | Created (order_id : Z) (total_amount : A)
  | Rejected (e : Error).
Global Arguments Created {A}.
Global Arguments Rejected {A}.

(** The HTTP status returned next to the JSON body. *)
Definition status_code {A} (r : Response A) : Z :=
  match r with
  | Created _ _ => 201
  | Rejected (ItemNotFound _) => 404
  | Rejected (OrderFailed _) => 500
  | Rejected _ => 400
  end.

Module Session.
Record t (A : Type) := mk {
  committed : DB.t A;
  working : DB.t A;
}.
Global Arguments mk {A}.
Global Arguments committed {A}.
Global Arguments working {A}.
End Session.

Definition begin {A} (db : DB.t A) : Session.t A :=
  Session.mk db db.
Definition commit {A} (s : Session.t A) : Session.t A :=
  Session.mk (Session.working s) (Session.working s).
Definition rollback {A} (s : Session.t A) : Session.t A :=
  Session.mk (Session.committed s) (Session.committed s).

(** ** The handler's control flow

    A statement of the handler runs in the session and either falls
    through with a value, leaves the function through [return], or raises. *)

Inductive result (A X : Type) : Type :=
  | Ok (x : X)
  | Return (r : Response A)
  | Raise (e : Exn).
Global Arguments Ok {A X}.
Global Arguments Return {A X}.
Global Arguments Raise {A X}.

Definition M (A X : Type) : Type := Session.t A → result A X * Session.t A.

Definition ret {A X} (x : X) : M A X := λ s, (Ok x, s).
Definition return_ {A X} (r : Response A) : M A X := λ s, (Return r, s).
Definition raise {A X} (e : Exn) : M A X := λ s, (Raise e, s).

Definition bind {A X Y} (m : M A X) (k : X → M A Y) : M A Y :=
  λ s, match m s with
       | (Ok x, s') => k x s'
       | (Return r, s') => (Return r, s')
       | (Raise e, s') => (Raise e, s')
       end.

Declare Scope handler_scope.
Delimit Scope handler_scope with handler.
Notation "'let*' x ':=' m 'in' k" := (bind m (λ x, k))
  (at level 10, x pattern, m at level 100, k at level 200) : handler_scope.
Notation "m ;; k" := (bind m (λ _, k))
  (at level 100, k at level 200, right associativity) : handler_scope.
Open Scope handler_scope.

(** [for x in xs: acc = body(acc, x)], where the body may return or raise. *)
Fixpoint for_each {A X S} (xs : list X) (acc : S) (body : S → X → M A S) : M A S :=
  match xs with
  | [] => ret acc
  | x :: rest => let* acc' := body acc x in for_each rest acc' body
  end.

Definition read {A X} (f : DB.t A → X) : M A X :=
  λ s, (Ok (f (Session.working s)), s).
Definition write {A} (f : DB.t A → DB.t A) : M A unit :=
  λ s, (Ok tt, Session.mk (Session.committed s) (f (Session.working s))).

(** Attribute assignments on rows, and table updates. *)

Definition set_quantity_left (q : Z) (it : Item.t) : Item.t :=
  Item.mk (Item.name it) q (Item.is_active it).

Definition set_first_name (v : option string) (c : Customer.t) : Customer.t :=
  Customer.mk (Customer.id c) v (Customer.last_name c) (Customer.email c)
    (Customer.phone c) (Customer.address c) (Customer.city c)
    (Customer.postal_code c) (Customer.country c).
Definition set_last_name (v : option string) (c : Customer.t) : Customer.t :=
  Customer.mk (Customer.id c) (Customer.first_name c) v (Customer.email c)
    (Customer.phone c) (Customer.address c) (Customer.city c)
    (Customer.postal_code c) (Customer.country c).
Definition set_phone (v : option string) (c : Customer.t) : Customer.t :=
  Customer.mk (Customer.id c) (Customer.first_name c) (Customer.last_name c)
    (Customer.email c) v (Customer.address c) (Customer.city c)
    (Customer.postal_code c) (Customer.country c).
Definition set_address (v : option string) (c : Customer.t) : Customer.t :=
  Customer.mk (Customer.id c) (Customer.first_name c) (Customer.last_name c)
    (Customer.email c) (Customer.phone c) v (Customer.city c)
    (Customer.postal_code c) (Customer.country c).
Definition set_city (v : option string) (c : Customer.t) : Customer.t :=
  Customer.mk (Customer.id c) (Customer.first_name c) (Customer.last_name c)
    (Customer.email c) (Customer.phone c) (Customer.address c) v
    (Customer.postal_code c) (Customer.country c).
Definition set_postal_code (v : option string) (c : Customer.t) : Customer.t :=
  Customer.mk (Customer.id c) (Customer.first_name c) (Customer.last_name c)
    (Customer.email c) (Customer.phone c) (Customer.address c)
    (Customer.city c) v (Customer.country c).
Definition set_country (v : option string) (c : Customer.t) : Customer.t :=
  Customer.mk (Customer.id c) (Customer.first_name c) (Customer.last_name c)
    (Customer.email c) (Customer.phone c) (Customer.address c)
    (Customer.city c) (Customer.postal_code c) v.

Definition with_items {A} (f : gmap Z Item.t → gmap Z Item.t) (db : DB.t A) : DB.t A :=
  DB.mk (f (DB.items db)) (DB.customers db) (DB.orders db) (DB.order_items db).
Definition with_customers {A} (f : list Customer.t → list Customer.t) (db : DB.t A) : DB.t A :=
  DB.mk (DB.items db) (f (DB.customers db)) (DB.orders db) (DB.order_items db).
Definition with_orders {A} (f : list (Order.t A) → list (Order.t A)) (db : DB.t A) : DB.t A :=
  DB.mk (DB.items db) (DB.customers db) (f (DB.orders db)) (DB.order_items db).
Definition with_order_items {A}
    (f : list (OrderItem.t A) → list (OrderItem.t A)) (db : DB.t A) : DB.t A :=
  DB.mk (DB.items db) (DB.customers db) (DB.orders db) (f (DB.order_items db)).

(** One entry of the handler's local list [order_items]: the item object
    (a reference to its row in the session), the quantity and the price. *)
Module Line.
Record t (A : Type) := mk {
  item : Z;
  quantity : Z;
  price : A;
}.
Global Arguments mk {A}.
Global Arguments item {A}.
Global Arguments quantity {A}.
Global Arguments price {A}.
End Line.

#[global] Instance Money_Truthy {A} `{Money A} : Truthy A | 100 := m_bool.
#[global] Instance list_Truthy {X} : Truthy (list X) :=
  λ l, match l with [] => false | _ => true end.
#[global] Instance dict_Truthy {V} : Truthy (gmap string V) :=
  λ d, bool_decide (d ≠ ∅).

Definition required_fields : list string :=
  ["customer"; "items"; "payment_method"].
Definition customer_required : list string :=
  ["first_name"; "last_name"; "email"; "phone"; "address"; "city"].

(** ** The handler *)

Section Handler.
Context {A : Type} `{!Money A}.
Variable faults : storage_op → bool.

Definition storage (op : storage_op) : M A unit :=
  if faults op then raise (StorageError op) else ret tt.

(** [db.session.get(Item, item_id)] *)
Definition session_get (item_id : Z) : M A (option Item.t) :=
  storage (SGet item_id);;
  read (λ db, DB.items db !! item_id).

(** [Customer.query.filter_by(email=email).first()]: the row and where it
    sits in the table. *)
Definition customer_by_email (email : option string)
    : M A (option (nat * Customer.t)) :=
  storage SQuery;;
  read (λ db, list_find (λ c, Customer.email c = email) (DB.customers db)).

(** [db.session.commit()] *)
Definition session_commit : M A unit :=
  storage SCommit;;
  λ s, (Ok tt, commit s).

(** [customer_data] is the Python value of [data['customer']]: a dict, or
    [None] when the request carries [null]. *)
Definition dict_in (k : string) (d : option (gmap string (option string)))
    : M A bool :=
  match d with
  | None => raise TypeError
  | Some d => ret (bool_decide (is_Some (d !! k)))
  end.

Definition dict_item (d : option (gmap string (option string))) (k : string)
    : M A (option string) :=
  match d with
  | None => raise TypeError
  | Some d => match d !! k with
              | Some v => ret v
              | None => raise (KeyError k)
              end
  end.

Definition dict_get_or (d : option (gmap string (option string))) (k : string)
    (default : string) : M A (option string) :=
  match d with
  | None => raise TypeError
  | Some d => match d !! k with
              | Some v => ret v
              | None => ret (Some default)
              end
  end.

(** [customer.attr = value] on the customer object at row [i]. *)
Definition set_customer (i : nat) (f : Customer.t → Customer.t) : M A unit :=
  write (with_customers (λ cs,
    match cs !! i with
    | Some c => <[i := f c]> cs
    | None => cs
    end)).

(** The first loop of the handler (lines 674-698): every line item is
    checked against the session, the total is accumulated, and the checked
    lines are collected.  [check_item] is the body of the loop. *)
Definition check_item (acc : A * list (Line.t A)) (item_data : LineItem.t A)
    : M A (A * list (Line.t A)) :=
  let '(total_amount, order_items) := acc in
  let item_id := get (LineItem.item_id item_data) in
  let quantity := get_or (LineItem.quantity item_data) 1 in
  let price := get (LineItem.price item_data) in
  match truthy item_id, truthy quantity, truthy price with
  | Some item_id, Some quantity, Some price =>
      let* item := session_get item_id in
      match item with
      | None => return_ (Rejected (ItemNotFound item_id))
      | Some item =>
          if negb (Item.is_active item) then
            return_ (Rejected (ItemInactive (Item.name item)))
          else if Item.quantity_left item <? quantity then
            return_ (Rejected (InsufficientStock (Item.name item)
                                 (Item.quantity_left item)))
          else
            ret (m_add total_amount (m_mul price quantity),
                 order_items ++ [Line.mk item_id quantity price])
      end
  | _, _, _ => return_ (Rejected IncompleteItem)
  end.

Definition check_items (items_data : list (LineItem.t A))
    : M A (A * list (Line.t A)) :=
  for_each items_data (m_zero, []) check_item.

(** [Column(..., default=d)]: the INSERT of a row leaves out an attribute
    that is [None], and the column takes its default.  An UPDATE writes
    the [None]. *)
Definition column_default (d : string) (v : option string) : option string :=
  match v with
  | None => Some d
  | Some _ => v
  end.

(** The upsert of the customer and the flush that follows it (lines
    700-728); the value is [customer.id].  The row of the insert branch
    is written as the INSERT stores it. *)
Definition upsert_customer (customer_data : option (gmap string (option string)))
    : M A Z :=
  let* email := dict_item customer_data "email" in
  let* customer := customer_by_email email in
  let* customer_id :=
    match customer with
    | Some (i, customer) =>
        let* v := dict_item customer_data "first_name" in
        set_customer i (set_first_name v);;
        let* v := dict_item customer_data "last_name" in
        set_customer i (set_last_name v);;
        let* v := dict_item customer_data "phone" in
        set_customer i (set_phone v);;
        let* v := dict_item customer_data "address" in
        set_customer i (set_address v);;
        let* v := dict_item customer_data "city" in
        set_customer i (set_city v);;
        let* v := dict_get_or customer_data "postal_code" "" in
        set_customer i (set_postal_code v);;
        let* v := dict_get_or customer_data "country" "TW" in
        set_customer i (set_country v);;
        ret (Customer.id customer)
    | None =>
        let* first_name := dict_item customer_data "first_name" in
        let* last_name := dict_item customer_data "last_name" in
        let* email := dict_item customer_data "email" in
        let* phone := dict_item customer_data "phone" in
        let* address := dict_item customer_data "address" in
        let* city := dict_item customer_data "city" in
        let* postal_code := dict_get_or customer_data "postal_code" "" in
        let* country := dict_get_or customer_data "country" "TW" in
        let* id := read (λ db, fresh_id (Customer.id <$> DB.customers db)) in
        write (with_customers (λ cs, cs ++
          [Customer.mk id first_name last_name email phone address city
             postal_code (column_default "TW" country)]));;
        ret id
    end in
  storage SFlushCustomer;;
  ret customer_id.

(** The second loop (lines 750-765): one [OrderItem] per checked line, and
    the stock update on the item object the line refers to.  The row is
    written as the INSERT stores it: [price_at_time] is a [db.Float]. *)
Definition add_order_item (order_id : Z) (order_item_data : Line.t A)
    : M A unit :=
  let item := Line.item order_item_data in
  let quantity := Line.quantity order_item_data in
  let price := Line.price order_item_data in
  let* id := read (λ db, fresh_id (OrderItem.id <$> DB.order_items db)) in
  write (with_order_items (λ rows, rows ++
    [OrderItem.mk id order_id item quantity (m_store price)]));;
  write (with_items (alter (λ it,
    set_quantity_left (Item.quantity_left it - quantity) it) item)).

Definition add_order_items (order_id : Z) (order_items : list (Line.t A))
    : M A unit :=
  for_each order_items tt (λ _, add_order_item order_id).

(** The checks of the required keys (lines 650-653) and of the customer
    fields (lines 661-664). *)
Definition check_required (data : Request.t A) : M A unit :=
  for_each required_fields tt (λ _ field,
    if negb (Request.has_key data field) then
      return_ (Rejected (MissingField field))
    else ret tt).

Definition check_customer_field
    (customer_data : option (gmap string (option string))) (field : string)
    : M A unit :=
  let* present := dict_in field customer_data in
  if negb present then return_ (Rejected (MissingCustomerField field))
  else
    let* v := dict_item customer_data field in
    match truthy v with
    | None => return_ (Rejected (MissingCustomerField field))
    | Some _ => ret tt
    end.

Definition check_customer (customer_data : option (gmap string (option string)))
    : M A unit :=
  for_each customer_required tt (λ _, check_customer_field customer_data).

(** The writes of the handler (lines 700-773), made once every check has
    passed: the customer upsert, the order, its line items with the stock
    updates, and the commit.  [total_amount] of the row is a [db.Float];
    the answer carries the handler's own [total_amount].  The commit
    expires the objects of the session, so [order.id] in the answer
    reloads the order. *)
Definition persist_order (data : Request.t A)
    (customer_data : option (gmap string (option string)))
    (payment_method notes : option string)
    (total_amount : A) (order_items : list (Line.t A)) : M A (Response A) :=
  let* customer_id := upsert_customer customer_data in
  let delivery_method := get_or (Request.delivery_method data) "" in
  let store_info := get_or (Request.store_info data) ∅ in
  let store_get k :=
    match truthy store_info with
    | Some d => d !! k
    | None => None
    end in
  let* order_id := read (λ db, fresh_id (Order.id <$> DB.orders db)) in
  write (with_orders (λ rows, rows ++
    [Order.mk order_id customer_id (m_store total_amount) "pending"
       delivery_method
       (store_get "storeid") (store_get "storename")
       (store_get "storeaddress") payment_method notes]));;
  storage SFlushOrder;;
  add_order_items order_id order_items;;
  session_commit;;
  storage SRefresh;;
  ret (Created order_id total_amount).

(** The body of the [try] block. *)
Definition create_order_try (data : Request.t A) : M A (Response A) :=
  check_required data;;
  let customer_data := get (Request.customer data) in
  let items_data := get (Request.items data) in
  let payment_method := get (Request.payment_method data) in
  let notes := get_or (Request.notes data) "" in
  check_customer customer_data;;
  match truthy items_data with
  | None => return_ (Rejected EmptyOrder)
  | Some items_data =>
      let* (total_amount, order_items) := check_items items_data in
      persist_order data customer_data payment_method notes
        total_amount order_items
  end.

(** [create_order]: the [try] block under its [except Exception] handler,
    which rolls the session back and answers 500. *)
Definition create_order (data : Request.t A) (s : Session.t A)
    : Response A * Session.t A :=
  match create_order_try data s with
  | (Ok r, s') => (r, s')
  | (Return r, s') => (r, s')
  | (Raise e, s') => (Rejected (OrderFailed e), rollback s')
  end.

(** One request against the database [db]: the handler runs in a session
    of its own, and what the request leaves behind is what that session
    committed. *)
Definition post_orders (db : DB.t A) (data : Request.t A)
    : Response A * DB.t A :=
  let '(r, s) := create_order data (begin db) in
  (r, Session.committed s).

End Handler.

(** ** What the service is specified against *)

Section Spec.
Context {A : Type} `{!Money A}.

(** The line item [l] carries the identifier [i], the quantity [q] (1 when
    the key is absent) and the price [p], none of them falsy. *)
Definition complete (l : LineItem.t A) (i q : Z) (p : A) : Prop :=
  LineItem.item_id l = Val i ∧ i ≠ 0 ∧
  (LineItem.quantity l = Val q ∨ LineItem.quantity l = Absent ∧ q = 1) ∧
  q ≠ 0 ∧
  LineItem.price l = Val p ∧ m_bool p = true.

(** A key that is absent or carries [null]. *)
Definition missing {T} (f : field T) : Prop := f = Absent ∨ f = Null.

(** The line item passes every check of the handler against the items of
    [db]. *)
Definition line_ok (db : DB.t A) (l : LineItem.t A) : Prop :=
  ∃ i q p it,
    complete l i q p ∧ DB.items db !! i = Some it ∧
    Item.is_active it = true ∧ q ≤ Item.quantity_left it.

Definition line_item (l : LineItem.t A) : Z :=
  default 0 (get (LineItem.item_id l)).
Definition line_quantity (l : LineItem.t A) : Z :=
  default 0 (get_or (LineItem.quantity l) 1).
Definition line_price (l : LineItem.t A) : A :=
  default m_zero (get (LineItem.price l)).

(** Σ price × quantity over the line items, added up from 0 in request
    order. *)
Definition order_total (ls : list (LineItem.t A)) : A :=
  foldl (λ acc l, m_add acc (m_mul (line_price l) (line_quantity l))) m_zero ls.

(** The same sum over rows of the [OrderItem] table. *)
Definition rows_total (rows : list (OrderItem.t A)) : A :=
  foldl (λ acc oi,
    m_add acc (m_mul (OrderItem.price_at_time oi) (OrderItem.quantity oi)))
    m_zero rows.

(** The quantity of item [id] that the line items order altogether. *)
Definition ordered (ls : list (LineItem.t A)) (id : Z) : Z :=
  foldr (λ l acc, if decide (line_item l = id) then line_quantity l + acc else acc)
    0 ls.

(** The row of [OrderItem] that belongs to line item [l] of order [oid]. *)
Definition row_of (oid : Z) (l : LineItem.t A) (oi : OrderItem.t A) : Prop :=
  OrderItem.order_id oi = oid ∧
  OrderItem.item_id oi = line_item l ∧
  OrderItem.quantity oi = line_quantity l ∧
  OrderItem.price_at_time oi = m_store (line_price l).

(** The [db.Float] column keeps the amount [x] as it is. *)
Definition kept (x : A) : Prop := m_store x = x.

(** A required customer field is present and neither null nor empty. *)
Definition field_ok (c : gmap string (option string)) (f : string) : Prop :=
  ∃ v, c !! f = Some (Some v) ∧ v ≠ "".
Definition customer_ok (c : gmap string (option string)) : Prop :=
  Forall (field_ok c) customer_required.

(** The request passes the checks made before the line items are looked
    at: it has the three required keys, a complete customer [c] and the
    non-empty list of line items [ls]. *)
Definition header_ok (data : Request.t A)
    (c : gmap string (option string)) (ls : list (LineItem.t A)) : Prop :=
  Request.customer data = Val c ∧ customer_ok c ∧
  Request.items data = Val ls ∧ ls ≠ [] ∧
  Request.payment_method data ≠ Absent.

(** The request passes all validation against [db]. *)
Definition valid_request (db : DB.t A) (data : Request.t A)
    (c : gmap string (option string)) (ls : list (LineItem.t A)) : Prop :=
  header_ok data c ls ∧ Forall (line_ok db) ls.

(** No storage interaction raises. *)
Definition storage_ok (faults : storage_op → bool) : Prop :=
  ∀ op, faults op = false.

(** The item lookups of the line items [ls] do not raise. *)
Definition gets_ok (faults : storage_op → bool) (ls : list (LineItem.t A)) : Prop :=
  Forall (λ l, faults (SGet (line_item l)) = false) ls.

(** The storage interactions of an accepted order do not raise. *)
Definition run_ok (faults : storage_op → bool) (ls : list (LineItem.t A)) : Prop :=
  gets_ok faults ls ∧
  faults SQuery = false ∧ faults SFlushCustomer = false ∧
  faults SFlushOrder = false ∧ faults SCommit = false ∧
  faults SRefresh = false.

(** The storage interactions up to and including the commit do not
    raise. *)
Definition commit_ok (faults : storage_op → bool) (ls : list (LineItem.t A)) : Prop :=
  gets_ok faults ls ∧
  faults SQuery = false ∧ faults SFlushCustomer = false ∧
  faults SFlushOrder = false ∧ faults SCommit = false.

(** The request is answered with the error [e], and the session is left
    as it was opened on [db]: nothing written, nothing pending. *)
Definition rejects (faults : storage_op → bool) (db : DB.t A)
    (data : Request.t A) (e : Error) : Prop :=
  create_order faults data (begin db) = (Rejected e, begin db).

(** Stock never below zero. *)
Definition stock_nonneg (db : DB.t A) : Prop :=
  ∀ id it, DB.items db !! id = Some it → 0 ≤ Item.quantity_left it.

(** Every row of [OrderItem] belongs to a row of [Order] (the foreign key
    [order_item.order_id]). *)
Definition order_items_owned (db : DB.t A) : Prop :=
  ∀ oi, oi ∈ DB.order_items db →
    ∃ o, o ∈ DB.orders db ∧ Order.id o = OrderItem.order_id oi.

(** The value a customer column takes from the request. *)
Definition cvalue (c : gmap string (option string)) (k : string) : option string :=
  match c !! k with Some v => v | None => None end.
Definition cvalue_or (c : gmap string (option string)) (k default : string)
    : option string :=
  match c !! k with Some v => v | None => Some default end.

(** The existing row [old] after the update branch of the upsert. *)
Definition overwritten (c : gmap string (option string)) (old : Customer.t)
    : Customer.t :=
  Customer.mk (Customer.id old)
    (cvalue c "first_name") (cvalue c "last_name") (Customer.email old)
    (cvalue c "phone") (cvalue c "address") (cvalue c "city")
    (cvalue_or c "postal_code" "") (cvalue_or c "country" "TW").

(** The row the insert branch creates: a [country] that is [null] in the
    request is stored as the default of the column. *)
Definition new_customer (c : gmap string (option string)) (id : Z) : Customer.t :=
  Customer.mk id
    (cvalue c "first_name") (cvalue c "last_name") (cvalue c "email")
    (cvalue c "phone") (cvalue c "address") (cvalue c "city")
    (cvalue_or c "postal_code" "")
    (column_default "TW" (cvalue_or c "country" "TW")).

End Spec.

(** ** Closed forms of the handler's writes *)

Section Effects.
Context {A : Type} `{!Money A}.

(** The handler's list [order_items] after the first loop. *)
Definition lines_of (ls : list (LineItem.t A)) : list (Line.t A) :=
  (λ l, Line.mk (line_item l) (line_quantity l) (line_price l)) <$> ls.

(** The item table after the stock updates of the second loop. *)
Definition stock_after (ol : list (Line.t A)) (m : gmap Z Item.t) : gmap Z Item.t :=
  foldl (λ m l, alter (λ it,
    set_quantity_left (Item.quantity_left it - Line.quantity l) it)
    (Line.item l) m) m ol.

(** The [OrderItem] table after the inserts of the second loop. *)
Definition rows_after (oid : Z) (ol : list (Line.t A))
    (rows : list (OrderItem.t A)) : list (OrderItem.t A) :=
  foldl (λ rows l, rows ++
    [OrderItem.mk (fresh_id (OrderItem.id <$> rows)) oid
       (Line.item l) (Line.quantity l) (m_store (Line.price l))]) rows ol.

(** The customer table after the upsert, and the id of the customer. *)
Definition upserted (c : gmap string (option string)) (cs : list Customer.t)
    : list Customer.t * Z :=
  match list_find (λ row, Customer.email row = cvalue c "email") cs with
  | Some (i, old) => (<[i := overwritten c old]> cs, Customer.id old)
  | None =>
      let id := fresh_id (Customer.id <$> cs) in
      (cs ++ [new_customer c id], id)
  end.

(** The [country] of the customer of an accepted order: the update branch
    writes the value of the request, [null] included; the insert branch
    stores the default of the column in place of [null]. *)
Definition country_after (c : gmap string (option string))
    (cs : list Customer.t) : option string :=
  if decide (cvalue c "email" ∈ Customer.email <$> cs)
  then cvalue_or c "country" "TW"
  else column_default "TW" (cvalue_or c "country" "TW").

(** The row of [Order] the handler inserts for the total [total]. *)
Definition order_row (data : Request.t A) (oid cid : Z) (total : A) : Order.t A :=
  let store_info := get_or (Request.store_info data) ∅ in
  let store_get k :=
    match truthy store_info with Some d => d !! k | None => None end in
  Order.mk oid cid (m_store total) "pending"
    (get_or (Request.delivery_method data) "")
    (store_get "storeid") (store_get "storename") (store_get "storeaddress")
    (get (Request.payment_method data)) (get_or (Request.notes data) "").

Definition placed_id (db : DB.t A) : Z := fresh_id (Order.id <$> DB.orders db).

(** The database after an accepted order. *)
Definition placed (db : DB.t A) (data : Request.t A)
    (c : gmap string (option string)) (ls : list (LineItem.t A)) : DB.t A :=
  DB.mk
    (stock_after (lines_of ls) (DB.items db))
    (upserted c (DB.customers db)).1
    (DB.orders db ++
       [order_row data (placed_id db) (upserted c (DB.customers db)).2
          (order_total ls)])
    (rows_after (placed_id db) (lines_of ls) (DB.order_items db)).

(** The session [s] with the customer table replaced. *)
Definition with_rows (s : Session.t A) (cs : list Customer.t) : Session.t A :=
  Session.mk (Session.committed s) (with_customers (λ _, cs) (Session.working s)).

(** The database the session sees at each storage interaction of the
    writes. *)
Definition after_upsert (w : DB.t A) (c : gmap string (option string)) : DB.t A :=
  with_customers (λ _, (upserted c (DB.customers w)).1) w.
Definition after_order (w : DB.t A) (data : Request.t A)
    (c : gmap string (option string)) (total : A) : DB.t A :=
  DB.mk (DB.items w) (upserted c (DB.customers w)).1
    (DB.orders w ++
       [order_row data (placed_id w) (upserted c (DB.customers w)).2 total])
    (DB.order_items w).
Definition after_items (w : DB.t A) (data : Request.t A)
    (c : gmap string (option string)) (total : A) (ol : list (Line.t A)) : DB.t A :=
  DB.mk (stock_after ol (DB.items w)) (upserted c (DB.customers w)).1
    (DB.orders w ++
       [order_row data (placed_id w) (upserted c (DB.customers w)).2 total])
    (rows_after (placed_id w) ol (DB.order_items w)).

(** Outcomes of a statement, by the way it ends. *)
Definition wp {X} (m : M A X) (s : Session.t A)
    (Q : X → Session.t A → Prop)
    (R : Response A → Session.t A → Prop)
    (E : Exn → Session.t A → Prop) : Prop :=
  match m s with
  | (Ok x, s') => Q x s'
  | (Return r, s') => R r s'
  | (Raise e, s') => E e s'
  end.

End Effects.

(** ** Concrete data for the examples *)

Definition no_faults : storage_op → bool := λ _, false.

Definition commit_fails : storage_op → bool :=
  λ op, match op with SCommit => true | _ => false end.

Definition reload_fails : storage_op → bool :=
  λ op, match op with SRefresh => true | _ => false end.

(** A shop with two items and no customer yet: five of "A" (item 1) and
    two of "B" (item 2) in stock. *)
Definition shop : DB.t Z :=
  DB.mk (<[ 2 := Item.mk "B" 2 true ]> {[ 1 := Item.mk "A" 5 true ]}) [] [] [].

Definition ann : gmap string (option string) :=
  list_to_map [
    ("first_name", Some "Ann"); ("last_name", Some "Lee");
    ("email", Some "ann@example.com"); ("phone", Some "0912345678");
    ("address", Some "1 Main Street"); ("city", Some "Taipei")].

(** The same shop once Ann is a customer, under an older name. *)
Definition ann_before : Customer.t :=
  Customer.mk 1 (Some "Anna") (Some "Li") (Some "ann@example.com")
    (Some "02000000") (Some "2 Side Street") (Some "Tainan")
    (Some "700") (Some "TW").

Definition shop_with_ann : DB.t Z :=
  with_customers (λ _, [ann_before]) shop.

Definition line (i q p : Z) : LineItem.t Z :=
  LineItem.mk (Val i) (Val q) (Val p).

(** Ann's order of the line items [ls], paid cash on delivery. *)
Definition order_of (ls : list (LineItem.t Z)) : Request.t Z :=
  Request.mk (Val ann) (Val ls) (Val "cod") Absent Absent Absent.

(** ** Integrity of the tables, and runs of several requests *)

Section Integrity.
Context {A : Type}.

(** Primary keys are unique in the three tables kept as rows. *)
Definition keys_unique (db : DB.t A) : Prop :=
  NoDup (Customer.id <$> DB.customers db) ∧
  NoDup (Order.id <$> DB.orders db) ∧
  NoDup (OrderItem.id <$> DB.order_items db).

(** The unique constraint on [customer.email]. *)
Definition emails_unique (db : DB.t A) : Prop :=
  NoDup (Customer.email <$> DB.customers db).

(** The foreign keys: every order belongs to a customer, every order item
    to an order and to an item. *)
Definition references_ok (db : DB.t A) : Prop :=
  (∀ o, o ∈ DB.orders db →
     ∃ c, c ∈ DB.customers db ∧ Customer.id c = Order.customer_id o) ∧
  (∀ oi, oi ∈ DB.order_items db →
     ∃ o, o ∈ DB.orders db ∧ Order.id o = OrderItem.order_id oi) ∧
  (∀ oi, oi ∈ DB.order_items db →
     is_Some (DB.items db !! OrderItem.item_id oi)).

End Integrity.

(** The database after the requests [reqs], one after the other, each
    with the storage faults that meet it. *)
Definition run_requests {A} `{!Money A} (db : DB.t A)
    (reqs : list ((storage_op → bool) * Request.t A)) : DB.t A :=
  foldl (λ db req, (post_orders req.1 db req.2).2) db reqs.

(** ** Reading an order back, and changing its status

    [get_order] (lines 780-824) and [update_order_status] (lines 953-994).
    The timestamp columns are left out, as in the tables above: every row
    of [Order] is inserted with the default of [order_date], so
    [order.order_date.isoformat()] does not raise.  [@jwt_required] runs
    before [update_order_status]; the identity of an accepted token is the
    decimal [str(admin.id)] that [admin_login_api] put there, so
    [int(admin_id)] is that number. *)

Module Admin.
Record t := mk {
  id : Z;
  username : string;
  email : string;
  password_hash : string;
}.
End Admin.

(** One entry of ['items'] in the answer of [get_order]. *)
Module ItemView.
Record t (A : Type) := mk {
  id : Z;
  item_name : string;
  quantity : Z;
  price : A;
}.
Global Arguments mk {A}.
Global Arguments id {A}.
Global Arguments item_name {A}.
Global Arguments quantity {A}.
Global Arguments price {A}.
End ItemView.

(** The JSON object [get_order] answers with; ['customer'] is the nested
    object, key by key. *)
Module OrderView.
Record t (A : Type) := mk {
  id : Z;
  total_amount : A;
  status : string;
  delivery_method : option string;
  store_id : option string;
  store_name : option string;
  store_address : option string;
  payment_method : option string;
  notes : option string;
  customer : list (string * option string);
  items : list (ItemView.t A);
}.
Global Arguments mk {A}.
Global Arguments id {A}.
Global Arguments total_amount {A}.
Global Arguments status {A}.
Global Arguments delivery_method {A}.
Global Arguments store_id {A}.
Global Arguments store_name {A}.
Global Arguments store_address {A}.
Global Arguments payment_method {A}.
Global Arguments notes {A}.
Global Arguments customer {A}.
Global Arguments items {A}.
End OrderView.

Inductive OrderReply (A : Type) : Type :=
  | OrderFound (v : OrderView.t A)
  | OrderMissing            (* 404 *)
  | OrderError.             (* 500, from the [except] clause *)
Global Arguments OrderFound {A}.
Global Arguments OrderMissing {A}.
Global Arguments OrderError {A}.

Definition order_reply_code {A} (r : OrderReply A) : Z :=
  match r with
  | OrderFound _ => 200
  | OrderMissing => 404
  | OrderError => 500
  end.

(** The storage interactions of the two handlers. *)
Inductive order_op : Type :=
  | OGetAdmin               (* db.session.get(Admin, int(admin_id)) *)
  | OGetOrder               (* db.session.get(Order, order_id) *)
  | OLoadOrderItems         (* order.order_items *)
  | OLoadItem (item_id : Z) (* order_item.item *)
  | OLoadCustomer           (* order.customer *)
  | OCommitStatus           (* db.session.commit() *)
  | ORefresh.               (* order.id, reloaded after the commit *)

(** A JSON value other than [null]: a string, or anything else with its
    truth value. *)
Inductive json_value : Type :=
  | JString (s : string)
  | JOther (truth : bool).

#[global] Instance json_Truthy : Truthy json_value :=
  λ v, match v with JString s => py_bool s | JOther b => b end.

(** What [request.get_json()] gives [update_order_status]: an object, of
    which only the key [status] is read, or something on which [data.get]
    raises (no JSON, [null], a list, a number, ...). *)
Inductive StatusBody : Type :=
  | NotObject
  | StatusObject (status : field json_value).

Inductive StatusReply : Type :=
  | StatusUpdated (order_id : Z) (old_status new_status : string)
  | AdminNotFound           (* 404 *)
  | OrderNotFound           (* 404 *)
  | StatusRequired          (* 400 *)
  | InvalidStatus           (* 400 *)
  | StatusFailed.           (* 500, from the [except] clause *)

Definition status_reply_code (r : StatusReply) : Z :=
  match r with
  | StatusUpdated _ _ _ => 200
  | AdminNotFound | OrderNotFound => 404
  | StatusRequired | InvalidStatus => 400
  | StatusFailed => 500
  end.

Definition valid_statuses : list string :=
  ["pending"; "confirmed"; "shipped"; "delivered"; "cancelled"].

(** [new_status not in valid_statuses], negated: the string, when the
    value is one of the list. *)
Definition valid_status (v : json_value) : option string :=
  match v with
  | JString s => if bool_decide (s ∈ valid_statuses) then Some s else None
  | JOther _ => None
  end.

Definition set_status {A} (v : string) (o : Order.t A) : Order.t A :=
  Order.mk (Order.id o) (Order.customer_id o) (Order.total_amount o) v
    (Order.delivery_method o) (Order.store_id o) (Order.store_name o)
    (Order.store_address o) (Order.payment_method o) (Order.notes o).

(** The nested object ['customer'] of the answer. *)
Definition customer_view (c : Customer.t) : list (string * option string) :=
  [("first_name", Customer.first_name c); ("last_name", Customer.last_name c);
   ("email", Customer.email c); ("phone", Customer.phone c);
   ("address", Customer.address c); ("city", Customer.city c);
   ("postal_code", Customer.postal_code c); ("country", Customer.country c)].

Section Orders.
Context {A : Type}.
Variable faults : order_op → bool.

(** A storage interaction giving [x]; [None] when it raises. *)
Definition fetch {X} (op : order_op) (x : X) : option X :=
  if faults op then None else Some x.

(** [db.session.get(Order, order_id)]: the row and where it sits. *)
Definition order_by_id (db : DB.t A) (order_id : Z) : option (nat * Order.t A) :=
  list_find (λ o, Order.id o = order_id) (DB.orders db).

(** [order.order_items]: the rows of the order, in table order. *)
Definition order_items_of (db : DB.t A) (order : Order.t A)
    : list (OrderItem.t A) :=
  filter (λ oi, OrderItem.order_id oi = Order.id order) (DB.order_items db).

(** The body of the loop of [get_order]; [order_item.item.name] raises
    when the item is gone. *)
Definition order_item_view (db : DB.t A) (order_item : OrderItem.t A)
    : option (ItemView.t A) :=
  item ← fetch (OLoadItem (OrderItem.item_id order_item))
           (DB.items db !! OrderItem.item_id order_item);
  item ← item;
  Some (ItemView.mk (OrderItem.id order_item) (Item.name item)
          (OrderItem.quantity order_item) (OrderItem.price_at_time order_item)).

(** The [try] block of [get_order]; [None] when it raises. *)
Definition get_order_try (db : DB.t A) (order_id : Z) : option (OrderReply A) :=
  order ← fetch OGetOrder (order_by_id db order_id);
  match order with
  | None => Some OrderMissing
  | Some (_, order) =>
      rows ← fetch OLoadOrderItems (order_items_of db order);
      order_items ← mapM (order_item_view db) rows;
      customer ← fetch OLoadCustomer
        (list_find (λ c, Customer.id c = Order.customer_id order)
           (DB.customers db));
      customer ← customer;
      Some (OrderFound (OrderView.mk
        (Order.id order) (Order.total_amount order) (Order.status order)
        (Order.delivery_method order) (Order.store_id order)
        (Order.store_name order) (Order.store_address order)
        (Order.payment_method order) (Order.notes order)
        (customer_view customer.2) order_items))
  end.

Definition get_order (db : DB.t A) (order_id : Z) : OrderReply A :=
  default OrderError (get_order_try db order_id).

(** The [try] block of [update_order_status]; [None] when it raises. *)
Definition update_order_status_try (admins : list Admin.t)
    (admin_id order_id : Z) (data : StatusBody) (s : Session.t A)
    : option StatusReply * Session.t A :=
  if faults OGetAdmin then (None, s) else
  match list_find (λ a, Admin.id a = admin_id) admins with
  | None => (Some AdminNotFound, s)
  | Some _ =>
  if faults OGetOrder then (None, s) else
  match order_by_id (Session.working s) order_id with
  | None => (Some OrderNotFound, s)
  | Some (i, order) =>
  match data with
  | NotObject => (None, s)
  | StatusObject status =>
  match truthy (get status) with
  | None => (Some StatusRequired, s)
  | Some new_status =>
  match valid_status new_status with
  | None => (Some InvalidStatus, s)
  | Some new_status =>
      let old_status := Order.status order in
      let s := Session.mk (Session.committed s)
        (with_orders (λ os, <[i := set_status new_status order]> os)
           (Session.working s)) in
      if faults OCommitStatus then (None, s) else
      let s := commit s in
      if faults ORefresh then (None, s) else
      (Some (StatusUpdated (Order.id order) old_status new_status), s)
  end end end end end.

Definition update_order_status (admins : list Admin.t)
    (admin_id order_id : Z) (data : StatusBody) (s : Session.t A)
    : StatusReply * Session.t A :=
  match update_order_status_try admins admin_id order_id data s with
  | (Some r, s) => (r, s)
  | (None, s) => (StatusFailed, rollback s)
  end.

(** [PUT /api/orders/<order_id>/status] on the database [db]: the answer
    and the database afterwards. *)
Definition put_order_status (admins : list Admin.t) (db : DB.t A)
    (admin_id order_id : Z) (data : StatusBody) : StatusReply * DB.t A :=
  let '(r, s) := update_order_status admins admin_id order_id data (begin db) in
  (r, Session.committed s).

End Orders.

(** The answer of [get_order] with another [status]. *)
Definition with_status {A} (v : string) (r : OrderReply A) : OrderReply A :=
  match r with
  | OrderFound w => OrderFound (OrderView.mk
      (OrderView.id w) (OrderView.total_amount w) v
      (OrderView.delivery_method w) (OrderView.store_id w)
      (OrderView.store_name w) (OrderView.store_address w)
      (OrderView.payment_method w) (OrderView.notes w)
      (OrderView.customer w) (OrderView.items w))
  | r => r
  end.

Definition orders_ok (faults : order_op → bool) : Prop :=
  ∀ op, faults op = false.

Definition no_order_faults : order_op → bool := λ _, false.

(** ** Names of uploaded files

    [allowed_file] (lines 33-34).  A Python string is kept as its UTF-8
    bytes.  A dot is the byte 46 in UTF-8 and nowhere part of another
    character, so splitting at the last dot is the same on bytes.
    [lower] lower-cases the ASCII letters only; [str.lower] also maps
    characters outside ASCII, but the result then keeps a character
    outside ASCII or, for the Kelvin sign alone, gets a [k], and neither is
    in an element of [ALLOWED_EXTENSIONS]: the membership test comes out
    the same. *)

Definition ALLOWED_EXTENSIONS : gset string :=
  {[ "png"; "jpg"; "jpeg"; "gif"; "webp" ]}.

Definition lower_char (c : Ascii.ascii) : Ascii.ascii :=
  let n := Ascii.N_of_ascii c in
  if bool_decide (65 ≤ n ≤ 90)%N then Ascii.ascii_of_N (n + 32) else c.

(** [s.lower()] *)
Fixpoint lower (s : string) : string :=
  match s with
  | EmptyString => EmptyString
  | String c s => String (lower_char c) (lower s)
  end.

(** [c in s], for a string [c] of one character *)
Fixpoint str_contains (c : Ascii.ascii) (s : string) : bool :=
  match s with
  | EmptyString => false
  | String c' s => bool_decide (c' = c) || str_contains c s
  end.

(** [s.rsplit(sep, 1)], for a separator of one character: the parts
    before and after the last [sep], or [s] alone. *)
Fixpoint rsplit1 (sep : Ascii.ascii) (s : string) : list string :=
  match s with
  | EmptyString => [EmptyString]
  | String c rest =>
      match rsplit1 sep rest with
      | [head; tail] => [String c head; tail]
      | _ => if bool_decide (c = sep) then [EmptyString; rest] else [s]
      end
  end.

(** [None] stands for the [IndexError] of [[1]]. *)
Definition allowed_file (filename : string) : option bool :=
  if str_contains "."%char filename then
    ext ← rsplit1 "."%char filename !! 1%nat;
    Some (bool_decide (lower ext ∈ ALLOWED_EXTENSIONS))
  else Some false.

(** ** Admin accounts

    [admin_register] (lines 174-196) and [admin_login_api] (lines
    198-215).  The values of [username], [email] and [password] are
    strings, [null] or absent.  Neither handler has a [try]: an exception
    leaves the function, the request is answered 500 by the framework and
    its session is discarded.  Werkzeug's [generate_password_hash] draws a
    salt; the salt is an input here, and the two hash functions are left
    abstract. *)

(** What [request.get_json()] gives the two handlers. *)
Inductive AdminBody : Type :=
  | BodyFalsy               (* null, or another falsy value *)
  | BodyNotObject           (* a truthy value without [get] *)
  | BodyObject (username email password : field string).

Inductive RegisterReply : Type :=
  | Registered              (* 201 *)
  | MissingFields           (* 400 *)
  | UsernameExists          (* 400 *)
  | EmailExists             (* 400 *)
  | RegisterCrashed.        (* 500, an exception left the handler *)

Inductive LoginReply : Type :=
  | LoggedIn (identity admin_id : Z) (username : string)   (* 200 *)
  | MissingCredentials      (* 400 *)
  | InvalidCredentials      (* 401 *)
  | LoginCrashed.           (* 500, an exception left the handler *)

Definition register_code (r : RegisterReply) : Z :=
  match r with
  | Registered => 201
  | RegisterCrashed => 500
  | _ => 400
  end.

Definition login_code (r : LoginReply) : Z :=
  match r with
  | LoggedIn _ _ _ => 200
  | MissingCredentials => 400
  | InvalidCredentials => 401
  | LoginCrashed => 500
  end.

Inductive admin_op : Type :=
  | AQueryUsername          (* Admin.query.filter_by(username=...).first() *)
  | AQueryEmail             (* Admin.query.filter_by(email=...).first() *)
  | ACommit.                (* db.session.commit() *)

Section Admins.
Variable generate_password_hash : string → string → string.
Variable check_password_hash : string → string → bool.
Variable faults : admin_op → bool.

(** [data.get(k)] when it is truthy. *)
Definition given (f : field string) : option string := truthy (get f).

(** [POST /api/admin/register] on the table [admins]: the answer and the
    table afterwards. *)
Definition admin_register (salt : string) (admins : list Admin.t)
    (data : AdminBody) : RegisterReply * list Admin.t :=
  match data with
  | BodyFalsy => (MissingFields, admins)
  | BodyNotObject => (RegisterCrashed, admins)
  | BodyObject username email password =>
      match given username, given email, given password with
      | Some username, Some email, Some password =>
          if faults AQueryUsername then (RegisterCrashed, admins) else
          match list_find (λ a, Admin.username a = username) admins with
          | Some _ => (UsernameExists, admins)
          | None =>
          if faults AQueryEmail then (RegisterCrashed, admins) else
          match list_find (λ a, Admin.email a = email) admins with
          | Some _ => (EmailExists, admins)
          | None =>
          let admin := Admin.mk (fresh_id (Admin.id <$> admins)) username email
                         (generate_password_hash salt password) in
          if faults ACommit then (RegisterCrashed, admins) else
          (Registered, admins ++ [admin])
          end end
      | _, _, _ => (MissingFields, admins)
      end
  end.

(** [POST /api/admin/login]; the token is kept as its identity, the
    number that [str(admin.id)] writes. *)
Definition admin_login_api (admins : list Admin.t) (data : AdminBody)
    : LoginReply :=
  match data with
  | BodyFalsy => MissingCredentials
  | BodyNotObject => LoginCrashed
  | BodyObject username _ password =>
      match given username, given password with
      | Some username, Some password =>
          if faults AQueryUsername then LoginCrashed else
          match list_find (λ a, Admin.username a = username) admins with
          | Some (_, admin) =>
              if check_password_hash (Admin.password_hash admin) password
              then LoggedIn (Admin.id admin) (Admin.id admin) (Admin.username admin)
              else InvalidCredentials
          | None => InvalidCredentials
          end
      | _, _ => MissingCredentials
      end
  end.

End Admins.

(** The unique constraints and the primary key of [Admin]. *)
Definition admins_unique (admins : list Admin.t) : Prop :=
  NoDup (Admin.id <$> admins) ∧ NoDup (Admin.username <$> admins) ∧
  NoDup (Admin.email <$> admins).

Definition admins_ok (faults : admin_op → bool) : Prop :=
  ∀ op, faults op = false.

Definition no_admin_faults : admin_op → bool := λ _, false.

(** ** More concrete data *)

(** The shop with a third item, "C" (item 3), taken off sale. *)
Definition shop_with_retired : DB.t Z :=
  with_items (λ m, <[ 3 := Item.mk "C" 4 false ]> m) shop.

(** The shop after Ann's order of three "A" at 10. *)
Definition shop_with_order : DB.t Z :=
  (post_orders no_faults shop (order_of [line 1 3 10])).2.

(** A stand-in for the two hash functions in the examples: the password
    itself. *)
Definition plain_hash (salt password : string) : string := password.
Definition plain_check (pwhash password : string) : bool :=
  bool_decide (pwhash = password).

(** The account that [init_database.py] creates. *)
Definition root : Admin.t :=
  Admin.mk 1 "admin" "admin@example.com" (plain_hash "salt" "admin123").

(** A registration by Bob. *)
Definition bob : AdminBody :=
  BodyObject (Val "bob") (Val "bob@example.com") (Val "secret").

(** * Proofs *)

(** ** Rules for the outcomes of statements *)

Section Rules.
Context {A : Type} `{!Money A}.
Implicit Types (s : Session.t A).

Lemma wp_ret {X} (x : X) s Q R E : Q x s → wp (ret x) s Q R E.
Proof. done. Qed.

Lemma wp_return {X} r s (Q : X → _) R E : R r s → wp (return_ r) s Q R E.
Proof. done. Qed.

Lemma wp_bind {X Y} (m : M A X) (k : X → M A Y) s Q R E :
  wp m s (λ x s', wp (k x) s' Q R E) R E → wp (bind m k) s Q R E.
Proof. unfold wp, bind. destruct (m s) as [[x|r|e] s']; auto. Qed.

Lemma for_each_nil {X S} (acc : S) (body : S → X → M A S) :
  for_each [] acc body = ret acc.
Proof. done. Qed.

Lemma for_each_cons {X S} x (xs : list X) (acc : S) (body : S → X → M A S) :
  for_each (x :: xs) acc body =
    (let* acc' := body acc x in for_each xs acc' body).
Proof. done. Qed.

Lemma bind_run {X Y} (m : M A X) (k : X → M A Y) s x s' :
  m s = (Ok x, s') → bind m k s = k x s'.
Proof. intros Hm. unfold bind. by rewrite Hm. Qed.

End Rules.

(** ** The checks of the required keys *)

Section Header.
Context {A : Type} `{!Money A}.
Variable faults : storage_op → bool.
Implicit Types (s : Session.t A) (data : Request.t A).

Lemma contains_true {T} (f : field T) : contains f = true ↔ f ≠ Absent.
Proof.
  destruct f; simpl; (split; [|done]); [|done..].
  intros Hne. discriminate.
Qed.

Lemma check_required_run data s :
  Request.customer data ≠ Absent →
  Request.items data ≠ Absent →
  Request.payment_method data ≠ Absent →
  check_required data s = (Ok tt, s).
Proof.
  intros Hc Hi Hp. apply contains_true in Hc, Hi, Hp.
  unfold check_required, required_fields, for_each, bind, Request.has_key. simpl.
  by rewrite Hc, Hi, Hp.
Qed.

Lemma wp_check_required data s (Q : unit → _) R E :
  (Request.customer data ≠ Absent →
   Request.items data ≠ Absent →
   Request.payment_method data ≠ Absent → Q tt s) →
  (∀ f, R (Rejected (MissingField f)) s) →
  wp (check_required data) s Q R E.
Proof.
  intros HQ HR. unfold wp.
  destruct (Request.customer data) eqn:Hc;
  destruct (Request.items data) eqn:Hi;
  destruct (Request.payment_method data) eqn:Hp;
    unfold check_required, required_fields, for_each, bind, Request.has_key;
    simpl; rewrite ?Hc, ?Hi, ?Hp; simpl; try apply HR; by apply HQ.
Qed.

End Header.

(** ** The checks of the customer fields *)

Section CustomerCheck.
Context {A : Type} `{!Money A}.
Implicit Types (s : Session.t A) (c : gmap string (option string)).

Lemma check_customer_field_cases c f s :
  (field_ok c f ∧ check_customer_field (Some c) f s = (Ok tt, s)) ∨
  (¬ field_ok c f ∧
   check_customer_field (Some c) f s =
     (Return (Rejected (MissingCustomerField f)), s)).
Proof.
  unfold check_customer_field, field_ok, dict_in, dict_item, bind, ret, return_.
  destruct (c !! f) as [[v|]|] eqn:Hf; simpl.
  - destruct v as [|a w]; simpl; [right|left].
    + split; [|done]. by intros (v & [= <-] & Hne).
    + split; [|done]. by eexists.
  - right. split; [|done]. by intros (v & [=] & _).
  - right. split; [|done]. by intros (v & [=] & _).
Qed.

Lemma check_fields_run c fs s :
  Forall (field_ok c) fs →
  for_each fs tt (λ _, check_customer_field (A:=A) (Some c)) s = (Ok tt, s).
Proof.
  induction 1 as [|f fs Hf _ IH]; [done|]. rewrite for_each_cons.
  destruct (check_customer_field_cases c f s) as [[_ Hrun]|[Hn _]]; [|done].
  by rewrite (bind_run _ _ _ _ _ Hrun).
Qed.

Lemma wp_check_fields c fs s (Q : unit → _) R E :
  (Forall (field_ok c) fs → Q tt s) →
  (∀ f, R (Rejected (MissingCustomerField f)) s) →
  wp (for_each fs tt (λ _, check_customer_field (A:=A) (Some c))) s Q R E.
Proof.
  intros HQ HR. induction fs as [|f fs IH].
  - apply wp_ret. by apply HQ.
  - rewrite for_each_cons. apply wp_bind. unfold wp at 1.
    destruct (check_customer_field_cases c f s) as [[Hf ->]|[Hn ->]]; [|done].
    apply IH. intros Hfs. apply HQ. by constructor.
Qed.

Lemma check_customer_run c s :
  customer_ok c → check_customer (A:=A) (Some c) s = (Ok tt, s).
Proof. apply check_fields_run. Qed.

Lemma wp_check_customer cd s (Q : unit → _) R E :
  (∀ c, cd = Some c → customer_ok c → Q tt s) →
  (∀ f, R (Rejected (MissingCustomerField f)) s) →
  E TypeError s →
  wp (check_customer (A:=A) cd) s Q R E.
Proof.
  intros HQ HR HE. destruct cd as [c|]; [|done].
  apply wp_check_fields; [|done]. by apply HQ.
Qed.

End CustomerCheck.

(** ** The first loop: the checks on the line items *)

Section Items.
Context {A : Type} `{!Money A}.
Variable faults : storage_op → bool.
Implicit Types (s : Session.t A) (l : LineItem.t A) (ls : list (LineItem.t A)).

Lemma truthy_Some {T} `{Truthy T} (v : option T) x :
  truthy v = Some x ↔ v = Some x ∧ py_bool x = true.
Proof.
  unfold truthy. destruct v as [y|]; [|split; [done|intros [? _]; done]].
  destruct (py_bool y) eqn:Hy.
  - split; [intros [= ->]; done|intros [[= ->] _]; done].
  - split; [done|intros [[= ->] ?]; congruence].
Qed.

Lemma Z_py_bool (n : Z) : py_bool n = true ↔ n ≠ 0.
Proof.
  unfold py_bool, Z_Truthy. destruct (Z.eqb_spec n 0); simpl; split; done.
Qed.

Lemma truthy_id (f : field Z) i :
  truthy (get f) = Some i ↔ f = Val i ∧ i ≠ 0.
Proof.
  rewrite truthy_Some, Z_py_bool. destruct f; simpl; split;
    try (intros [[=] ?]); try (intros [= ->]); subst; done.
Qed.

Lemma truthy_quantity (f : field Z) q :
  truthy (get_or f 1) = Some q ↔ (f = Val q ∨ f = Absent ∧ q = 1) ∧ q ≠ 0.
Proof.
  rewrite truthy_Some, Z_py_bool. destruct f; simpl; split.
  - intros [[= <-] ?]. split; [right|]; done.
  - intros [[[=]|[_ ->]] ?]. done.
  - intros [[=] _].
  - intros [[[=]|[[=] _]] _].
  - intros [[= ->] ?]. split; [left|]; done.
  - intros [[[= ->]|[[=] _]] ?]. done.
Qed.

Lemma truthy_price (f : field A) p :
  truthy (get f) = Some p ↔ f = Val p ∧ m_bool p = true.
Proof.
  rewrite truthy_Some. unfold py_bool, Money_Truthy. destruct f; simpl; split;
    try (intros [[=] ?]); try (intros [= ->]); subst; done.
Qed.

Lemma complete_truthy l i q p :
  complete l i q p ↔
  truthy (get (LineItem.item_id l)) = Some i ∧
  truthy (get_or (LineItem.quantity l) 1) = Some q ∧
  truthy (get (LineItem.price l)) = Some p.
Proof.
  unfold complete. rewrite truthy_id, truthy_quantity, truthy_price. tauto.
Qed.

Lemma complete_line l i q p :
  complete l i q p →
  line_item l = i ∧ line_quantity l = q ∧ line_price l = p.
Proof.
  unfold complete, line_item, line_quantity, line_price.
  intros (-> & _ & [-> | [-> ->]] & _ & -> & _); done.
Qed.

Lemma check_item_incomplete l acc s :
  (∀ i q p, ¬ complete l i q p) →
  check_item faults acc l s = (Return (Rejected IncompleteItem), s).
Proof.
  intros Hn. unfold check_item. destruct acc as [t ol].
  destruct (truthy (get (LineItem.item_id l))) as [i|] eqn:Hi; [|done].
  destruct (truthy (get_or (LineItem.quantity l) 1)) as [q|] eqn:Hq; [|done].
  destruct (truthy (get (LineItem.price l))) as [p|] eqn:Hp; [|done].
  destruct (Hn i q p). by apply complete_truthy.
Qed.

Lemma check_item_complete l i q p t ol s :
  complete l i q p →
  check_item faults (t, ol) l s =
    if faults (SGet i) then (Raise (StorageError (SGet i)), s)
    else match DB.items (Session.working s) !! i with
         | None => (Return (Rejected (ItemNotFound i)), s)
         | Some it =>
             if negb (Item.is_active it) then
               (Return (Rejected (ItemInactive (Item.name it))), s)
             else if Item.quantity_left it <? q then
               (Return (Rejected (InsufficientStock (Item.name it)
                                    (Item.quantity_left it))), s)
             else (Ok (m_add t (m_mul p q), ol ++ [Line.mk i q p]), s)
         end.
Proof.
  intros (Hi & Hq & Hp)%complete_truthy. unfold check_item.
  rewrite Hi, Hq, Hp. unfold session_get, storage, bind, read.
  destruct (faults (SGet i)); [done|]. simpl.
  destruct (DB.items (Session.working s) !! i) as [it|]; [|done].
  destruct (Item.is_active it); [|done]. simpl.
  by destruct (Item.quantity_left it <? q).
Qed.

Lemma complete_dec l :
  (∃ i q p, complete l i q p) ∨ (∀ i q p, ¬ complete l i q p).
Proof.
  destruct (truthy (get (LineItem.item_id l))) as [i|] eqn:Hi;
  destruct (truthy (get_or (LineItem.quantity l) 1)) as [q|] eqn:Hq;
  destruct (truthy (get (LineItem.price l))) as [p|] eqn:Hp;
    try (right; intros i' q' p' (? & ? & ?)%complete_truthy; congruence).
  left. exists i, q, p. by apply complete_truthy.
Qed.

(** The outcome of one iteration: an accepted line leaves through [Ok],
    anything else returns a rejection or raises; the session is not
    touched. *)
Lemma wp_check_item l t ol s (Q : A * list (Line.t A) → _) R E :
  (line_ok (Session.working s) l → faults (SGet (line_item l)) = false →
   Q (m_add t (m_mul (line_price l) (line_quantity l)),
      ol ++ [Line.mk (line_item l) (line_quantity l) (line_price l)]) s) →
  (∀ e, R (Rejected e) s) →
  (∀ e, E e s) →
  wp (check_item faults (t, ol) l) s Q R E.
Proof.
  intros HQ HR HE. unfold wp.
  destruct (complete_dec l) as [(i & q & p & Hc)|Hn].
  - rewrite (check_item_complete _ _ _ _ _ _ _ Hc).
    destruct (complete_line _ _ _ _ Hc) as (Hi & Hq & Hp).
    destruct (faults (SGet i)) eqn:Hf; [apply HE|].
    destruct (DB.items (Session.working s) !! i) as [it|] eqn:Hit; [|apply HR].
    destruct (Item.is_active it) eqn:Hact; [|apply HR]. simpl.
    destruct (Z.ltb_spec (Item.quantity_left it) q); [apply HR|].
    rewrite <- Hi, <- Hq, <- Hp. apply HQ; [|by rewrite Hi].
    exists i, q, p, it. done.
  - rewrite check_item_incomplete by done. apply HR.
Qed.

Lemma check_item_run l t ol s :
  line_ok (Session.working s) l → faults (SGet (line_item l)) = false →
  check_item faults (t, ol) l s =
    (Ok (m_add t (m_mul (line_price l) (line_quantity l)),
         ol ++ [Line.mk (line_item l) (line_quantity l) (line_price l)]), s).
Proof.
  intros (i & q & p & it & Hc & Hit & Hact & Hq) Hf.
  rewrite (check_item_complete _ _ _ _ _ _ _ Hc).
  destruct (complete_line _ _ _ _ Hc) as (<- & <- & <-).
  rewrite Hf, Hit, Hact. simpl.
  destruct (Z.ltb_spec (Item.quantity_left it) (line_quantity l)); [lia|done].
Qed.

Lemma check_lines_run ls t ol s :
  Forall (line_ok (Session.working s)) ls → gets_ok faults ls →
  for_each ls (t, ol) (check_item faults) s =
    (Ok (foldl (λ acc l, m_add acc (m_mul (line_price l) (line_quantity l))) t ls,
         ol ++ lines_of ls), s).
Proof.
  intros Hls. revert t ol. induction Hls as [|l ls Hl _ IH]; intros t ol Hg.
  - rewrite for_each_nil. simpl. by rewrite app_nil_r.
  - apply Forall_cons in Hg as [Hf Hg]. rewrite for_each_cons.
    rewrite (bind_run _ _ _ _ _ (check_item_run _ _ _ _ Hl Hf)).
    rewrite IH by done. by rewrite <- app_assoc.
Qed.

Lemma wp_check_lines ls t ol s (Q : A * list (Line.t A) → _) R E :
  (Forall (line_ok (Session.working s)) ls → gets_ok faults ls →
   Q (foldl (λ acc l, m_add acc (m_mul (line_price l) (line_quantity l))) t ls,
      ol ++ lines_of ls) s) →
  (∀ e, R (Rejected e) s) →
  (∀ e, E e s) →
  wp (for_each ls (t, ol) (check_item faults)) s Q R E.
Proof.
  intros HQ HR HE. revert t ol HQ. induction ls as [|l ls IH]; intros t ol HQ.
  - apply wp_ret. rewrite <- (app_nil_r ol) at 1.
    apply HQ; constructor.
  - rewrite for_each_cons. apply wp_bind. apply wp_check_item; [|done..].
    intros Hl Hf. apply IH. intros Hls Hg.
    rewrite <- app_assoc. apply HQ; by constructor.
Qed.

Lemma check_items_run ls s :
  Forall (line_ok (Session.working s)) ls → gets_ok faults ls →
  check_items faults ls s = (Ok (order_total ls, lines_of ls), s).
Proof. intros Hls Hg. unfold check_items. by rewrite check_lines_run. Qed.

Lemma wp_check_items ls s (Q : A * list (Line.t A) → _) R E :
  (Forall (line_ok (Session.working s)) ls → gets_ok faults ls →
   Q (order_total ls, lines_of ls) s) →
  (∀ e, R (Rejected e) s) →
  (∀ e, E e s) →
  wp (check_items faults ls) s Q R E.
Proof. intros HQ HR HE. by apply wp_check_lines. Qed.

(** The first line item that does not pass decides the response. *)
Lemma check_items_first_failure pre l post r s :
  Forall (line_ok (Session.working s)) pre → gets_ok faults pre →
  (∀ acc, check_item faults acc l s = (Return r, s)) →
  check_items faults (pre ++ l :: post) s = (Return r, s).
Proof.
  intros Hpre Hg Hl. unfold check_items. generalize (m_zero (A:=A)), (@nil (Line.t A)).
  induction Hpre as [|l0 pre Hl0 _ IH]; intros t ol.
  - simpl app. rewrite for_each_cons. unfold bind. by rewrite Hl.
  - apply Forall_cons in Hg as [Hf Hg]. simpl app. rewrite for_each_cons.
    rewrite (bind_run _ _ _ _ _ (check_item_run _ _ _ _ Hl0 Hf)). by apply IH.
Qed.

(** A line item that lacks a field is answered with a client error, also
    behind line items that fail a check of their own, as long as the
    lookups before it do not raise. *)
Lemma check_items_client_error pre l post s :
  gets_ok faults pre → (∀ i q p, ¬ complete l i q p) →
  ∃ e, check_items faults (pre ++ l :: post) s = (Return (Rejected e), s) ∧
       400 ≤ status_code (Rejected (A:=A) e) < 500.
Proof.
  intros Hg Hn. unfold check_items.
  generalize (m_zero (A:=A)), (@nil (Line.t A)).
  induction Hg as [|l0 pre Hf _ IH]; intros t ol; simpl app;
    rewrite for_each_cons; unfold bind at 1.
  - rewrite check_item_incomplete by done. exists IncompleteItem.
    split; [done|simpl; lia].
  - destruct (complete_dec l0) as [(i & q & p & Hc)|Hn0].
    + rewrite (check_item_complete _ _ _ _ _ _ _ Hc).
      destruct (complete_line _ _ _ _ Hc) as (Hi & _).
      rewrite Hi in Hf. rewrite Hf.
      destruct (DB.items (Session.working s) !! i) as [it|];
        [|eexists; split; [done|simpl; lia]].
      destruct (Item.is_active it); [|eexists; split; [done|simpl; lia]].
      simpl. destruct (Item.quantity_left it <? q);
        [eexists; split; [done|simpl; lia]|].
      apply IH.
    + rewrite check_item_incomplete by done. exists IncompleteItem.
      split; [done|simpl; lia].
Qed.

End Items.

(** ** The customer upsert *)

Section Writes.
Context {A : Type} `{!Money A}.
Variable faults : storage_op → bool.
Implicit Types (s : Session.t A) (c : gmap string (option string)).

Lemma field_ok_lookup c f :
  field_ok c f → ∃ v, c !! f = Some v ∧ cvalue c f = v.
Proof. intros (v & Hv & _). exists (Some v). unfold cvalue. by rewrite Hv. Qed.

Lemma dict_item_run c k s :
  field_ok c k → dict_item (A:=A) (Some c) k s = (Ok (cvalue c k), s).
Proof.
  intros (v & Hv & <-)%field_ok_lookup. unfold dict_item. by rewrite Hv.
Qed.

Lemma dict_get_or_run c k d s :
  dict_get_or (A:=A) (Some c) k d s = (Ok (cvalue_or c k d), s).
Proof. unfold dict_get_or, cvalue_or. by destruct (c !! k). Qed.

Lemma customer_ok_fields c :
  customer_ok c →
  field_ok c "first_name" ∧ field_ok c "last_name" ∧ field_ok c "email" ∧
  field_ok c "phone" ∧ field_ok c "address" ∧ field_ok c "city".
Proof.
  unfold customer_ok, customer_required. rewrite !Forall_cons. tauto.
Qed.

Lemma set_customer_step s cs i row f :
  (i < length cs)%nat →
  set_customer i f (with_rows s (<[i := row]> cs)) =
    (Ok tt, with_rows s (<[i := f row]> cs)).
Proof.
  intros Hi. unfold set_customer, write, with_rows, with_customers. simpl.
  rewrite list_lookup_insert_eq by done. by rewrite list_insert_insert_eq.
Qed.

Lemma with_rows_id s : with_rows s (DB.customers (Session.working s)) = s.
Proof. by destruct s as [? []]. Qed.

Lemma upsert_customer_cases c s :
  customer_ok c →
  upsert_customer faults (Some c) s =
    let up := upserted c (DB.customers (Session.working s)) in
    if faults SQuery then (Raise (StorageError SQuery), s)
    else if faults SFlushCustomer then
      (Raise (StorageError SFlushCustomer), with_rows s up.1)
    else (Ok up.2, with_rows s up.1).
Proof.
  intros (Hfn & Hln & Hem & Hph & Had & Hci)%customer_ok_fields.
  unfold upsert_customer, upserted.
  rewrite (bind_run _ _ _ _ _ (dict_item_run _ _ s Hem)).
  unfold customer_by_email at 1.
  unfold storage at 1. destruct (faults SQuery) eqn:Hq; [done|].
  unfold bind at 1. unfold bind at 1. unfold ret at 1. unfold read at 1.
  destruct (list_find _ _) as [[i old]|] eqn:Hfind.
  - apply list_find_Some in Hfind as (Hi & _ & _).
    assert (i < length (DB.customers (Session.working s)))%nat as Hlen
      by (by eapply lookup_lt_Some).
    rewrite <- (with_rows_id s) at 1.
    rewrite <- (list_insert_id _ _ _ Hi) at 1.
    unfold bind at 1.
    rewrite (bind_run _ _ _ _ _ (dict_item_run _ _ _ Hfn)).
    rewrite (bind_run _ _ _ _ _ (set_customer_step _ _ _ _ _ Hlen)).
    rewrite (bind_run _ _ _ _ _ (dict_item_run _ _ _ Hln)).
    rewrite (bind_run _ _ _ _ _ (set_customer_step _ _ _ _ _ Hlen)).
    rewrite (bind_run _ _ _ _ _ (dict_item_run _ _ _ Hph)).
    rewrite (bind_run _ _ _ _ _ (set_customer_step _ _ _ _ _ Hlen)).
    rewrite (bind_run _ _ _ _ _ (dict_item_run _ _ _ Had)).
    rewrite (bind_run _ _ _ _ _ (set_customer_step _ _ _ _ _ Hlen)).
    rewrite (bind_run _ _ _ _ _ (dict_item_run _ _ _ Hci)).
    rewrite (bind_run _ _ _ _ _ (set_customer_step _ _ _ _ _ Hlen)).
    rewrite (bind_run _ _ _ _ _ (dict_get_or_run _ _ _ _)).
    rewrite (bind_run _ _ _ _ _ (set_customer_step _ _ _ _ _ Hlen)).
    rewrite (bind_run _ _ _ _ _ (dict_get_or_run _ _ _ _)).
    rewrite (bind_run _ _ _ _ _ (set_customer_step _ _ _ _ _ Hlen)).
    unfold bind, storage. simpl.
    destruct (faults SFlushCustomer); done.
  - unfold bind at 1.
    rewrite (bind_run _ _ _ _ _ (dict_item_run _ _ _ Hfn)).
    rewrite (bind_run _ _ _ _ _ (dict_item_run _ _ _ Hln)).
    rewrite (bind_run _ _ _ _ _ (dict_item_run _ _ _ Hem)).
    rewrite (bind_run _ _ _ _ _ (dict_item_run _ _ _ Hph)).
    rewrite (bind_run _ _ _ _ _ (dict_item_run _ _ _ Had)).
    rewrite (bind_run _ _ _ _ _ (dict_item_run _ _ _ Hci)).
    rewrite (bind_run _ _ _ _ _ (dict_get_or_run _ _ _ _)).
    rewrite (bind_run _ _ _ _ _ (dict_get_or_run _ _ _ _)).
    unfold bind, storage, read, write. simpl.
    destruct (faults SFlushCustomer); done.
Qed.

End Writes.

(** ** The writes of an accepted order *)

Section Persist.
Context {A : Type} `{!Money A}.
Variable faults : storage_op → bool.
Implicit Types (s : Session.t A) (c : gmap string (option string)).

Lemma add_order_items_run oid (ol : list (Line.t A)) s :
  add_order_items oid ol s =
    (Ok tt, Session.mk (Session.committed s)
       (DB.mk (stock_after ol (DB.items (Session.working s)))
          (DB.customers (Session.working s))
          (DB.orders (Session.working s))
          (rows_after oid ol (DB.order_items (Session.working s))))).
Proof.
  unfold add_order_items. revert s. induction ol as [|l ol IH]; intros s.
  - by destruct s as [? []].
  - rewrite for_each_cons. unfold bind at 1.
    unfold add_order_item, bind, read, write. simpl. by rewrite IH.
Qed.

Lemma persist_order_cases data c total ol s :
  customer_ok c →
  persist_order faults data (Some c) (get (Request.payment_method data))
    (get_or (Request.notes data) "") total ol s =
    let w := Session.working s in
    let cm := Session.committed s in
    if faults SQuery then (Raise (StorageError SQuery), s)
    else if faults SFlushCustomer then
      (Raise (StorageError SFlushCustomer), Session.mk cm (after_upsert w c))
    else if faults SFlushOrder then
      (Raise (StorageError SFlushOrder),
       Session.mk cm (after_order w data c total))
    else if faults SCommit then
      (Raise (StorageError SCommit),
       Session.mk cm (after_items w data c total ol))
    else if faults SRefresh then
      (Raise (StorageError SRefresh),
       commit (Session.mk cm (after_items w data c total ol)))
    else
      (Ok (Created (placed_id w) total),
       commit (Session.mk cm (after_items w data c total ol))).
Proof.
  intros Hc. unfold persist_order. unfold bind at 1.
  rewrite (upsert_customer_cases faults c s Hc). simpl.
  destruct (faults SQuery); [done|].
  destruct (faults SFlushCustomer); [done|].
  unfold bind at 1. unfold read at 1. unfold bind at 1. unfold write at 1.
  unfold bind at 1. unfold storage at 1.
  destruct (faults SFlushOrder); [done|]. unfold ret at 1.
  unfold bind at 1. rewrite add_order_items_run.
  unfold session_commit, bind, storage.
  destruct (faults SCommit); [done|]. simpl.
  destruct (faults SRefresh); done.
Qed.

End Persist.

(** ** The handler as a whole *)

Section Main.
Context {A : Type} `{!Money A}.
Variable faults : storage_op → bool.
Implicit Types (s : Session.t A) (db : DB.t A) (data : Request.t A).
Implicit Types (c : gmap string (option string)) (ls : list (LineItem.t A)).

Lemma truthy_items (f : field (list (LineItem.t A))) ls :
  truthy (get f) = Some ls ↔ f = Val ls ∧ ls ≠ [].
Proof.
  rewrite truthy_Some. unfold py_bool, list_Truthy.
  destruct f as [| |v]; simpl; split;
    try (intros [[=] ?]); try (intros [= ->]); subst; try done.
  - by destruct ls.
  - by destruct ls.
Qed.

(** Up to the end of the first loop the handler only reads. *)
Lemma create_order_try_checked data c ls s :
  header_ok data c ls →
  create_order_try faults data s =
    (let* (total_amount, order_items) := check_items faults ls in
     persist_order faults data (Some c) (get (Request.payment_method data))
       (get_or (Request.notes data) "") total_amount order_items) s.
Proof.
  intros (Hc & Hcok & Hls & Hne & Hp). unfold create_order_try.
  rewrite (bind_run _ _ s tt s); last first.
  { apply check_required_run; [by rewrite Hc|by rewrite Hls|done]. }
  rewrite Hc. simpl get at 1 2.
  rewrite (bind_run _ _ s tt s) by (by apply check_customer_run).
  rewrite Hls. by rewrite (proj2 (truthy_items (Val ls) ls)).
Qed.

Lemma create_order_try_valid data c ls s :
  valid_request (Session.working s) data c ls → run_ok faults ls →
  create_order_try faults data s =
    (Ok (Created (placed_id (Session.working s)) (order_total ls)),
     commit (Session.mk (Session.committed s)
               (placed (Session.working s) data c ls))).
Proof.
  intros [Hh Hls] (Hg & Hq & Hfc & Hfo & Hcm & Hrl).
  rewrite (create_order_try_checked _ _ _ _ Hh).
  rewrite (bind_run _ _ _ _ _ (check_items_run faults _ _ Hls Hg)).
  rewrite persist_order_cases by apply Hh. simpl.
  by rewrite Hq, Hfc, Hfo, Hcm, Hrl.
Qed.

(** The reload of the order for the answer fails: the exception is raised
    on a session that has committed the order. *)
Lemma create_order_try_reload data c ls s :
  valid_request (Session.working s) data c ls → commit_ok faults ls →
  faults SRefresh = true →
  create_order_try faults data s =
    (Raise (StorageError SRefresh),
     commit (Session.mk (Session.committed s)
               (placed (Session.working s) data c ls))).
Proof.
  intros [Hh Hls] (Hg & Hq & Hfc & Hfo & Hcm) Hrl.
  rewrite (create_order_try_checked _ _ _ _ Hh).
  rewrite (bind_run _ _ _ _ _ (check_items_run faults _ _ Hls Hg)).
  rewrite persist_order_cases by apply Hh. simpl.
  by rewrite Hq, Hfc, Hfo, Hcm, Hrl.
Qed.

Lemma wp_create_order_try data s :
  wp (create_order_try faults data) s
    (λ _ _, ∃ c ls, valid_request (Session.working s) data c ls ∧ run_ok faults ls)
    (λ r s', s' = s ∧ ∃ e, r = Rejected e)
    (λ e s', Session.committed s' = Session.committed s ∨
             e = StorageError SRefresh ∧ faults SRefresh = true ∧
             ∃ c ls, valid_request (Session.working s) data c ls ∧
                     commit_ok faults ls).
Proof.
  unfold create_order_try.
  apply wp_bind, wp_check_required; [|by eauto]. intros Hc Hi Hp.
  apply wp_bind, wp_check_customer; [|by eauto|by left]. intros c Hcd Hcok.
  destruct (truthy (get (Request.items data))) as [ls|] eqn:Hls;
    [|apply wp_return; by eauto].
  apply truthy_items in Hls as [Hls Hne].
  assert (Request.customer data = Val c) as Hcv.
  { destruct (Request.customer data); simplify_eq/=. done. }
  apply wp_bind, wp_check_items; [|by eauto|by intros; left]. intros Hok Hg.
  unfold wp. rewrite Hcd, persist_order_cases by done. simpl.
  destruct (faults SQuery) eqn:Hq; [by left|].
  destruct (faults SFlushCustomer) eqn:Hfc; [by left|].
  destruct (faults SFlushOrder) eqn:Hfo; [by left|].
  destruct (faults SCommit) eqn:Hcm; [by left|].
  destruct (faults SRefresh) eqn:Hrl.
  - right. split; [done|]. split; [done|]. exists c, ls. repeat split; done.
  - exists c, ls. repeat split; done.
Qed.

Lemma create_order_valid db data c ls :
  valid_request db data c ls → run_ok faults ls →
  create_order faults data (begin db) =
    (Created (placed_id db) (order_total ls), begin (placed db data c ls)).
Proof.
  intros Hv Hr. unfold create_order.
  by rewrite (create_order_try_valid data c ls (begin db) Hv Hr).
Qed.

Lemma create_order_reload db data c ls :
  valid_request db data c ls → commit_ok faults ls → faults SRefresh = true →
  create_order faults data (begin db) =
    (Rejected (OrderFailed (StorageError SRefresh)),
     begin (placed db data c ls)).
Proof.
  intros Hv Hr Hrl. unfold create_order.
  by rewrite (create_order_try_reload data c ls (begin db) Hv Hr Hrl).
Qed.

(** Every request is either accepted, and then it is valid and its writes
    are the ones of [placed]; or answered with an error, and then the
    session is as it was opened; or it is valid and committed with the
    writes of [placed], and answered 500 because the reload of the order
    for the answer failed. *)
Lemma create_order_outcome db data :
  (∃ c ls, valid_request db data c ls ∧ run_ok faults ls ∧
     create_order faults data (begin db) =
       (Created (placed_id db) (order_total ls), begin (placed db data c ls))) ∨
  (∃ e, create_order faults data (begin db) = (Rejected e, begin db)) ∨
  (∃ c ls, valid_request db data c ls ∧ commit_ok faults ls ∧
     faults SRefresh = true ∧
     create_order faults data (begin db) =
       (Rejected (OrderFailed (StorageError SRefresh)),
        begin (placed db data c ls))).
Proof.
  pose proof (wp_create_order_try data (begin db)) as Hwp.
  unfold wp in Hwp.
  destruct (create_order_try faults data (begin db)) as [[r|r|e] s'] eqn:Hrun.
  - destruct Hwp as (c & ls & Hv & Hr). left. exists c, ls.
    split; [done|]. split; [done|]. by apply create_order_valid.
  - destruct Hwp as (-> & e & ->). right. left. exists e.
    unfold create_order. by rewrite Hrun.
  - destruct Hwp as [Hcm|(-> & Hrl & c & ls & Hv & Hr)].
    + right. left. exists (OrderFailed e). unfold create_order.
      rewrite Hrun. unfold rollback. by rewrite Hcm.
    + right. right. exists c, ls. repeat (split; [done|]).
      by apply create_order_reload.
Qed.

Lemma create_order_first_failure db data c pre l post r :
  header_ok data c (pre ++ l :: post) →
  Forall (line_ok db) pre → gets_ok faults pre →
  (∀ acc, check_item faults acc l (begin db) = (Return r, begin db)) →
  create_order faults data (begin db) = (r, begin db).
Proof.
  intros Hh Hpre Hg Hl. unfold create_order.
  rewrite (create_order_try_checked _ _ _ _ Hh). unfold bind.
  rewrite (check_items_first_failure faults pre l post r (begin db)); done.
Qed.

End Main.

(** ** The database after an accepted order *)

Section Placed.
Context {A : Type} `{!Money A}.
Implicit Types (db : DB.t A) (ls : list (LineItem.t A)).

Lemma fresh_id_gt ids x : x ∈ ids → x < fresh_id ids.
Proof.
  unfold fresh_id. induction 1 as [x ids|x y ids _ IH]; simpl; lia.
Qed.

Lemma set_quantity_left_same it :
  set_quantity_left (Item.quantity_left it) it = it.
Proof. by destruct it. Qed.

Lemma stock_after_lookup ls (m : gmap Z Item.t) id :
  stock_after (lines_of ls) m !! id =
    (λ it, set_quantity_left (Item.quantity_left it - ordered ls id) it) <$> m !! id.
Proof.
  revert m. induction ls as [|l ls IH]; intros m; simpl.
  - destruct (m !! id) as [it|]; simpl; [|done].
    by rewrite Z.sub_0_r, set_quantity_left_same.
  - unfold stock_after in *. simpl. rewrite IH. clear IH.
    destruct (decide (line_item l = id)) as [->|Hne].
    + rewrite lookup_alter_eq. destruct (m !! id) as [it|]; simpl; [|done].
      f_equal. unfold set_quantity_left. simpl. f_equal. lia.
    + by rewrite lookup_alter_ne.
Qed.

Lemma ordered_absent ls id :
  id ∉ line_item <$> ls → ordered ls id = 0.
Proof.
  induction ls as [|l ls IH]; simpl; [done|].
  rewrite not_elem_of_cons. intros [Hne Hnin].
  rewrite decide_False by done. by apply IH.
Qed.

Lemma ordered_NoDup ls l :
  NoDup (line_item <$> ls) → l ∈ ls → ordered ls (line_item l) = line_quantity l.
Proof.
  induction ls as [|l0 ls IH]; simpl; [by intros _ ?%elem_of_nil|].
  rewrite NoDup_cons. intros [Hnin Hnd] [->|Hin]%elem_of_cons.
  - rewrite decide_True by done. rewrite ordered_absent by done. lia.
  - rewrite decide_False; [by apply IH|].
    intros Heq. apply Hnin. rewrite Heq. by apply list_elem_of_fmap_2.
Qed.

Lemma rows_after_app oid ls (rows : list (OrderItem.t A)) :
  ∃ news, rows_after oid (lines_of ls) rows = rows ++ news ∧
          Forall2 (row_of oid) ls news.
Proof.
  revert rows. induction ls as [|l ls IH]; intros rows.
  - exists []. split; [by rewrite app_nil_r|constructor].
  - unfold rows_after in *. simpl.
    destruct (IH (rows ++
      [OrderItem.mk (fresh_id (OrderItem.id <$> rows)) oid
         (line_item l) (line_quantity l) (m_store (line_price l))]))
      as (news & -> & Hnews).
    eexists (_ :: news). split; [by rewrite <- app_assoc|].
    constructor; [done|exact Hnews].
Qed.

Lemma rows_total_lines oid ls (news : list (OrderItem.t A)) :
  Forall (λ l, kept (line_price l)) ls →
  Forall2 (row_of oid) ls news → rows_total news = order_total ls.
Proof.
  intros Hkept Hrows. unfold rows_total, order_total.
  generalize (m_zero (A:=A)).
  induction Hrows as [|l oi ls news (_ & _ & Hq & Hp) _ IH]; intros t; simpl;
    [done|].
  apply Forall_cons in Hkept as [Hl Hkept].
  rewrite Hq, Hp, Hl. by apply IH.
Qed.

Lemma rows_prices_kept oid ls (news : list (OrderItem.t A)) :
  Forall (λ l, kept (line_price l)) ls →
  Forall2 (row_of oid) ls news →
  Forall2 (λ l oi, OrderItem.price_at_time oi = line_price l) ls news.
Proof.
  intros Hkept Hrows.
  induction Hrows as [|l oi ls news (_ & _ & _ & Hp) _ IH]; [constructor|].
  apply Forall_cons in Hkept as [Hl Hkept].
  constructor; [by rewrite Hp|by apply IH].
Qed.

Lemma rows_order_id oid ls (news : list (OrderItem.t A)) :
  Forall2 (row_of oid) ls news →
  Forall (λ oi, OrderItem.order_id oi = oid) news.
Proof. induction 1 as [|???? [? _]]; constructor; done. Qed.

Lemma filter_all {X} (P : X → Prop) `{∀ x, Decision (P x)} (l : list X) :
  Forall P l → filter P l = l.
Proof.
  induction 1 as [|x l Hx _ IH]; [done|].
  by rewrite filter_cons_True, IH.
Qed.

Lemma filter_none {X} (P : X → Prop) `{∀ x, Decision (P x)} (l : list X) :
  Forall (λ x, ¬ P x) l → filter P l = [].
Proof.
  induction 1 as [|x l Hx _ IH]; [done|].
  by rewrite filter_cons_False.
Qed.

Lemma placed_id_fresh db (o : Order.t A) :
  o ∈ DB.orders db → Order.id o ≠ placed_id db.
Proof.
  intros Ho. unfold placed_id.
  assert (Order.id o < fresh_id (Order.id <$> DB.orders db)); [|lia].
  apply fresh_id_gt. by apply list_elem_of_fmap_2.
Qed.

End Placed.

(** * The claims *)

(** ** Shared lemmas *)

Section Shared.
Context {A : Type} `{!Money A}.
Implicit Types (faults : storage_op → bool) (db : DB.t A) (data : Request.t A).
Implicit Types (c : gmap string (option string)) (ls : list (LineItem.t A)).

Lemma storage_ok_gets faults ls : storage_ok faults → gets_ok faults ls.
Proof. intros Hok. apply Forall_forall. intros; apply Hok. Qed.

Lemma storage_ok_run faults ls : storage_ok faults → run_ok faults ls.
Proof.
  intros Hok. split; [by apply storage_ok_gets|]. repeat split; apply Hok.
Qed.

Lemma run_ok_commit faults ls : run_ok faults ls → commit_ok faults ls.
Proof. intros (? & ? & ? & ? & ? & _). by repeat split. Qed.

Lemma post_orders_session faults db data r s :
  create_order faults data (begin db) = (r, s) →
  post_orders faults db data = (r, Session.committed s).
Proof. intros Hrun. unfold post_orders. by rewrite Hrun. Qed.

Lemma post_orders_valid faults db data c ls :
  valid_request db data c ls → run_ok faults ls →
  post_orders faults db data =
    (Created (placed_id db) (order_total ls), placed db data c ls).
Proof.
  intros Hv Hr.
  by rewrite (post_orders_session _ _ _ _ _
                (create_order_valid faults db data c ls Hv Hr)).
Qed.

(** A line item that does not pass its checks keeps the order from being
    accepted, wherever it stands in the request. *)
Lemma create_order_bad_line faults db data ls l :
  Request.items data = Val ls → l ∈ ls → ¬ line_ok db l →
  ∃ e, rejects faults db data e.
Proof.
  intros Hls Hl Hbad.
  destruct (create_order_outcome faults db data)
    as [(c & ls' & [(_ & _ & Hls' & _) Hok] & _)
       |[Hrej|(c & ls' & [(_ & _ & Hls' & _) Hok] & _)]]; [|done|];
    rewrite Hls in Hls'; simplify_eq; destruct Hbad;
    by eapply (proj1 (Forall_forall _ _) Hok).
Qed.

Lemma first_failure_incomplete faults db data c pre l post :
  header_ok data c (pre ++ l :: post) → Forall (line_ok db) pre →
  gets_ok faults pre → (∀ i q p, ¬ complete l i q p) →
  rejects faults db data IncompleteItem.
Proof.
  intros Hh Hpre Hg Hn. eapply create_order_first_failure; [done..|].
  intros acc. by apply check_item_incomplete.
Qed.

Lemma incomplete_client_error faults db data c pre l post :
  header_ok data c (pre ++ l :: post) → gets_ok faults pre →
  (∀ i q p, ¬ complete l i q p) →
  ∃ e, rejects faults db data e ∧
       400 ≤ status_code (Rejected (A:=A) e) < 500.
Proof.
  intros Hh Hg Hn.
  destruct (check_items_client_error faults pre l post (begin db) Hg Hn)
    as (e & Hrun & Hcode).
  exists e. split; [|done]. unfold rejects, create_order.
  rewrite (create_order_try_checked _ _ _ _ _ Hh). unfold bind.
  by rewrite Hrun.
Qed.

(** Every request is accepted, with the writes of [placed]; or answered
    with an error, with no write; or committed with the writes of
    [placed] and answered 500, the reload of the order having failed. *)
Lemma post_orders_outcome faults db data :
  (∃ c ls, valid_request db data c ls ∧ run_ok faults ls ∧
     post_orders faults db data =
       (Created (placed_id db) (order_total ls), placed db data c ls)) ∨
  (∃ e, post_orders faults db data = (Rejected e, db)) ∨
  (∃ c ls, valid_request db data c ls ∧ commit_ok faults ls ∧
     faults SRefresh = true ∧
     post_orders faults db data =
       (Rejected (OrderFailed (StorageError SRefresh)), placed db data c ls)).
Proof.
  destruct (create_order_outcome faults db data)
    as [(c & ls & Hv & Hr & Hacc)|[[e Hrej]|(c & ls & Hv & Hr & Hrl & Hrun)]].
  - left. exists c, ls. split; [done|]. split; [done|].
    by rewrite (post_orders_session _ _ _ _ _ Hacc).
  - right. left. exists e. by rewrite (post_orders_session _ _ _ _ _ Hrej).
  - right. right. exists c, ls. repeat (split; [done|]).
    by rewrite (post_orders_session _ _ _ _ _ Hrun).
Qed.

(** What a request leaves behind: the database as it was, or the writes
    of [placed]. *)
Lemma post_orders_db faults db data :
  (post_orders faults db data).2 = db ∨
  ∃ c ls, valid_request db data c ls ∧
          (post_orders faults db data).2 = placed db data c ls.
Proof.
  destruct (post_orders_outcome faults db data)
    as [(c & ls & Hv & _ & ->)|[[e ->]|(c & ls & Hv & _ & _ & ->)]];
    [right; by exists c, ls|by left|right; by exists c, ls].
Qed.

(** An answer other than 201 and other than the failed reload leaves the
    database as it was. *)
Lemma post_orders_rejected faults db data e db' :
  post_orders faults db data = (Rejected e, db') →
  e ≠ OrderFailed (StorageError SRefresh) → db' = db.
Proof.
  intros Hrun Hne.
  destruct (post_orders_outcome faults db data)
    as [(c & ls & _ & _ & Heq)|[[e' Heq]|(c & ls & _ & _ & _ & Heq)]];
    rewrite Heq in Hrun; by simplify_eq.
Qed.

Lemma first_failure_complete faults db data c pre l post i q p :
  header_ok data c (pre ++ l :: post) → Forall (line_ok db) pre →
  gets_ok faults pre → complete l i q p → faults (SGet i) = false →
  (DB.items db !! i = None → rejects faults db data (ItemNotFound i)) ∧
  (∀ it, DB.items db !! i = Some it → Item.is_active it = false →
     rejects faults db data (ItemInactive (Item.name it))) ∧
  (∀ it, DB.items db !! i = Some it → Item.is_active it = true →
     Item.quantity_left it < q →
     rejects faults db data
       (InsufficientStock (Item.name it) (Item.quantity_left it))).
Proof.
  intros Hh Hpre Hg Hc Hf.
  pose proof (λ t ol, check_item_complete faults l i q p t ol (begin db) Hc)
    as Hrun.
  rewrite Hf in Hrun. change (Session.working (begin db)) with db in Hrun.
  split; [|split].
  - intros Hnone. eapply create_order_first_failure; [done..|].
    intros [t ol]. by rewrite Hrun, Hnone.
  - intros it Hit Hact. eapply create_order_first_failure; [done..|].
    intros [t ol]. by rewrite Hrun, Hit, Hact.
  - intros it Hit Hact Hlt. eapply create_order_first_failure; [done..|].
    intros [t ol]. rewrite Hrun, Hit, Hact. simpl.
    by destruct (Z.ltb_spec (Item.quantity_left it) q); [|lia].
Qed.

End Shared.

(** Facts about the concrete data. *)

Lemma no_faults_ok : storage_ok no_faults.
Proof. done. Qed.

Lemma ann_ok : customer_ok ann.
Proof.
  unfold customer_ok, customer_required.
  repeat (constructor; [eexists; split; [reflexivity|done]|]). constructor.
Qed.

Lemma order_of_header ls : ls ≠ [] → header_ok (order_of ls) ann ls.
Proof. intros Hne. repeat split; [apply ann_ok|done|done]. Qed.

Lemma order_of_valid db ls :
  ls ≠ [] → Forall (line_ok db) ls → valid_request db (order_of ls) ann ls.
Proof. intros Hne Hls. split; [by apply order_of_header|done]. Qed.

Lemma line_complete i q p :
  i ≠ 0 → q ≠ 0 → p ≠ 0 → complete (line i q p) i q p.
Proof.
  intros Hi Hq Hp. repeat split; try done; [by left|].
  simpl. by destruct (Z.eqb_spec p 0).
Qed.

Lemma line_ok_A db q p :
  DB.items db !! 1 = Some (Item.mk "A" 5 true) →
  q ≠ 0 → q ≤ 5 → p ≠ 0 → line_ok db (line 1 q p).
Proof.
  intros Hit Hq Hle Hp. exists 1, q, p, (Item.mk "A" 5 true).
  split; [by apply line_complete|]. done.
Qed.

Lemma shop_stock_nonneg : stock_nonneg shop.
Proof.
  intros id it Hit.
  change (DB.items shop) with
    (<[ 2 := Item.mk "B" 2 true ]> ({[ 1 := Item.mk "A" 5 true ]} : gmap Z Item.t))
    in Hit.
  apply lookup_insert_Some in Hit as [[_ <-]|[_ Hit]]; [simpl; lia|].
  apply lookup_singleton_Some in Hit as [_ <-]. simpl. lia.
Qed.

(** ** C1: stock never negative *)

(** C1.  The handler checks every line item against the stock as it was
    before the order, so an order naming the same item twice passes both
    checks and both decrements apply: with five of "A" in stock, two lines
    of three each are accepted (201, total 60) and leave
    [quantity_left = -1]. *)
Theorem repeated_item_drives_stock_negative :
  (post_orders no_faults shop (order_of [line 1 3 10; line 1 3 10])).1
    = Created 1 60 ∧
  Item.quantity_left <$>
    DB.items (post_orders no_faults shop
                (order_of [line 1 3 10; line 1 3 10])).2 !! 1 = Some (-1).
Proof. split; reflexivity. Qed.



(** ** C2: the total *)

(** C2, the claim as stated fails: [total_amount] and [price_at_time] are
    [db.Float] columns.  An order of one "A" at 9007199254740993 (2^53 + 1)
    and one "B" at 1 passes all validation and is answered 201 with the
    total 9007199254740994; the order keeps that total, but its two rows
    keep the prices 9007199254740992 and 1, whose sum is another number. *)
Lemma float_total_differs_from_rows :
  post_orders no_faults shop
    (order_of [line 1 1 9007199254740993; line 2 1 1])
  = (Created 1 9007199254740994,
     placed shop (order_of [line 1 1 9007199254740993; line 2 1 1]) ann
       [line 1 1 9007199254740993; line 2 1 1]) ∧
  Order.total_amount <$>
    DB.orders (placed shop (order_of [line 1 1 9007199254740993; line 2 1 1])
                 ann [line 1 1 9007199254740993; line 2 1 1])
  = [9007199254740994] ∧
  OrderItem.price_at_time <$>
    DB.order_items
      (placed shop (order_of [line 1 1 9007199254740993; line 2 1 1])
         ann [line 1 1 9007199254740993; line 2 1 1])
  = [9007199254740992; 1] ∧
  rows_total
    (DB.order_items
       (placed shop (order_of [line 1 1 9007199254740993; line 2 1 1])
          ann [line 1 1 9007199254740993; line 2 1 1]))
  ≠ 9007199254740994.
Proof. repeat split; [vm_compute; reflexivity..|vm_compute; discriminate]. Qed.

(** C2, as amended.  For a request that passes all validation (and a
    storage layer that does not fail), [create_order] answers 201 with
    [total_amount] equal to the sum over the submitted line items of
    price × quantity; the [Order] row it persists is the only one with the
    returned id and carries that total as the [db.Float] column keeps it.
    When the column keeps the total and every submitted price as they are,
    the persisted total is that sum, and it equals the sum of
    [quantity * price_at_time] over the [OrderItem] rows of the order.
    The last part relies on the foreign key of [OrderItem]: no row refers
    to an order that does not exist yet. *)
Theorem create_order_total {A} `{!Money A} (faults : storage_op → bool)
    (db : DB.t A) (data : Request.t A)
    (c : gmap string (option string)) (ls : list (LineItem.t A)) :
  valid_request db data c ls → storage_ok faults → order_items_owned db →
  ∃ oid db' o,
    post_orders faults db data = (Created oid (order_total ls), db') ∧
    filter (λ o', Order.id o' = oid) (DB.orders db') = [o] ∧
    Order.total_amount o = m_store (order_total ls) ∧
    (kept (order_total ls) → Forall (λ l, kept (line_price l)) ls →
     Order.total_amount o = order_total ls ∧
     Order.total_amount o =
       rows_total (filter (λ oi, OrderItem.order_id oi = oid)
                     (DB.order_items db'))).
Proof.
  intros Hv Hok Hown.
  exists (placed_id db), (placed db data c ls). eexists.
  split; [by apply post_orders_valid, storage_ok_run|].
  unfold placed. simpl.
  destruct (rows_after_app (placed_id db) ls (DB.order_items db))
    as (news & -> & Hnews).
  rewrite !filter_app.
  rewrite (filter_none _ (DB.orders db)); last first.
  { apply Forall_forall. intros o Ho. by apply placed_id_fresh. }
  rewrite (filter_none _ (DB.order_items db)); last first.
  { apply Forall_forall. intros oi Hoi.
    destruct (Hown oi Hoi) as (o & Ho & <-). by apply placed_id_fresh. }
  rewrite (filter_all _ news) by (by eapply rows_order_id).
  rewrite filter_cons_True by done. simpl.
  split; [done|]. split; [done|]. intros Htotal Hprices.
  split; [done|]. rewrite Htotal. symmetry. by eapply rows_total_lines.
Qed.

(** C2, as amended, at a concrete request: three of "A" at 10 make a
    total of 30, in the answer and in the table. *)
Lemma create_order_total_witness :
  ∃ oid db' o,
    post_orders no_faults shop (order_of [line 1 3 10]) = (Created oid 30, db') ∧
    filter (λ o', Order.id o' = oid) (DB.orders db') = [o] ∧
    Order.total_amount o = 30 ∧
    Order.total_amount o =
      rows_total (filter (λ oi, OrderItem.order_id oi = oid) (DB.order_items db')).
Proof.
  destruct (create_order_total no_faults shop (order_of [line 1 3 10]) ann
              [line 1 3 10])
    as (oid & db' & o & Hrun & Ho & _ & Hkept).
  - apply order_of_valid; [done|]. repeat constructor. by apply line_ok_A.
  - apply no_faults_ok.
  - intros oi Hoi. by apply elem_of_nil in Hoi.
  - destruct Hkept as [Htotal Hrows]; [reflexivity|by repeat constructor|].
    exists oid, db', o. split; [exact Hrun|]. split; [exact Ho|].
    split; [exact Htotal|exact Hrows].
Defined.

(** ** C3: stock decrements and order items *)

(** C3, the claim as stated fails: [price_at_time] is a [db.Float] column.
    An order of one "A" at 9007199254740993 (2^53 + 1) passes all
    validation and is answered 201 with that total; the price its row
    keeps is 9007199254740992, not the one submitted. *)
Lemma float_price_is_rounded :
  post_orders no_faults shop (order_of [line 1 1 9007199254740993])
  = (Created 1 9007199254740993,
     placed shop (order_of [line 1 1 9007199254740993]) ann
       [line 1 1 9007199254740993]) ∧
  OrderItem.price_at_time <$>
    DB.order_items (placed shop (order_of [line 1 1 9007199254740993]) ann
                      [line 1 1 9007199254740993])
  = [9007199254740992].
Proof. split; vm_compute; reflexivity. Qed.

(** C3, as amended.  For a request that passes all validation (and a
    storage layer that does not fail), [create_order] answers 201, lowers
    the [quantity_left] of every item by exactly the quantity ordered of
    it and changes nothing else in the item table (when the line items
    name distinct items: the item of each line item loses exactly that
    line's quantity), and appends to [OrderItem] exactly one row per
    submitted line item, in order, each with the line's item and quantity
    and, as [price_at_time], the line's price as the [db.Float] column
    keeps it: the price itself whenever the column keeps it as it is.
    The example of the specification is [create_order_example] below. *)
Theorem create_order_stock_and_rows {A} `{!Money A}
    (faults : storage_op → bool) (db : DB.t A) (data : Request.t A)
    (c : gmap string (option string)) (ls : list (LineItem.t A)) :
  valid_request db data c ls → storage_ok faults →
  ∃ oid db' rows,
    post_orders faults db data = (Created oid (order_total ls), db') ∧
    (∀ id, DB.items db' !! id =
       (λ it, set_quantity_left (Item.quantity_left it - ordered ls id) it)
         <$> DB.items db !! id) ∧
    (NoDup (line_item <$> ls) → ∀ l, l ∈ ls →
       ∃ it, DB.items db !! line_item l = Some it ∧
             DB.items db' !! line_item l =
               Some (set_quantity_left
                       (Item.quantity_left it - line_quantity l) it)) ∧
    DB.order_items db' = DB.order_items db ++ rows ∧
    Forall2 (row_of oid) ls rows ∧
    (Forall (λ l, kept (line_price l)) ls →
     Forall2 (λ l oi, OrderItem.price_at_time oi = line_price l) ls rows).
Proof.
  intros Hv Hok.
  destruct (rows_after_app (placed_id db) ls (DB.order_items db))
    as (news & Hrows & Hnews).
  exists (placed_id db), (placed db data c ls), news.
  split; [by apply post_orders_valid, storage_ok_run|].
  split; [intros id; apply stock_after_lookup|].
  split; [|split; [done|split; [done|]]].
  - intros Hnd l Hl. unfold placed. simpl. rewrite stock_after_lookup.
    destruct (proj1 (Forall_forall _ _) (proj2 Hv) l Hl)
      as (i & q & p & it & Hc & Hit & _).
    destruct (complete_line _ _ _ _ Hc) as (Hi & _).
    exists it. rewrite Hi, Hit. split; [done|]. simpl.
    by rewrite <- Hi, ordered_NoDup.
  - intros Hkept. by eapply rows_prices_kept.
Qed.

(** C3, the example of the specification: item A has [quantity_left = 5];
    an order of 3 at price 10 is accepted, leaves [quantity_left = 2], has
    [total_amount = 30] and one row in [OrderItem], with
    [price_at_time = 10]. *)
Lemma create_order_example :
  ∃ oid db',
    post_orders no_faults shop (order_of [line 1 3 10]) = (Created oid 30, db') ∧
    Item.quantity_left <$> DB.items db' !! 1 = Some 2 ∧
    (OrderItem.quantity <$> DB.order_items db') = [3] ∧
    (OrderItem.price_at_time <$> DB.order_items db') = [10].
Proof.
  destruct (create_order_stock_and_rows no_faults shop
              (order_of [line 1 3 10]) ann [line 1 3 10])
    as (oid & db' & rows & Hrun & Hstock & _ & Hrows & Hrel & Hprices).
  - apply order_of_valid; [done|]. repeat constructor. by apply line_ok_A.
  - apply no_faults_ok.
  - exists oid, db'. split; [exact Hrun|]. split.
    + rewrite Hstock. reflexivity.
    + rewrite Hrows.
      apply Forall2_cons_inv_l in Hrel as (oi & rows' & (_ & _ & Hq & _) & Hnil & ->).
      apply Forall2_nil_inv_l in Hnil as ->.
      pose proof (Hprices ltac:(by repeat constructor)) as Hp.
      apply Forall2_cons_1 in Hp as [Hp _]. simpl. by rewrite Hq, Hp.
Defined.

(** ** C4: rollback *)

(** C4, the code breaks the claim.  The answer of an accepted order reads
    [order.id] after [db.session.commit()], inside the [try]; the commit
    has expired the order, so the read reloads it.  When that reload
    fails, the [except] clause rolls back a session that has nothing left
    to roll back and answers 500: Ann's order of three "A" is answered
    with the generic failure, and the customer, the order, its line and
    the lowered stock are all in the database. *)
Theorem failed_reload_keeps_order :
  post_orders reload_fails shop (order_of [line 1 3 10])
  = (Rejected (OrderFailed (StorageError SRefresh)),
     placed shop (order_of [line 1 3 10]) ann [line 1 3 10]) ∧
  status_code (Rejected (A:=Z) (OrderFailed (StorageError SRefresh))) = 500 ∧
  Item.quantity_left <$> DB.items shop !! 1 = Some 5 ∧
  Item.quantity_left <$>
    DB.items (placed shop (order_of [line 1 3 10]) ann [line 1 3 10]) !! 1
  = Some 2 ∧
  (DB.customers shop, DB.orders shop, DB.order_items shop) = ([], [], []) ∧
  Customer.email <$>
    DB.customers (placed shop (order_of [line 1 3 10]) ann [line 1 3 10])
  = [Some "ann@example.com"] ∧
  Order.total_amount <$>
    DB.orders (placed shop (order_of [line 1 3 10]) ann [line 1 3 10])
  = [30] ∧
  OrderItem.quantity <$>
    DB.order_items (placed shop (order_of [line 1 3 10]) ann [line 1 3 10])
  = [3].
Proof. repeat split; vm_compute; reflexivity. Qed.

(** What the [except] clause does undo.  An answer other than 201 and
    other than the failed reload leaves no trace in the database; when a
    request has passed all validation and a storage interaction up to the
    commit fails (the customer query, either flush, or the commit), the
    [try] block raises, the handler rolls the session back to the state it
    was opened in, and the caller gets the generic failure, status 500;
    and when it is the commit that fails, what is rolled back is
    everything an accepted order writes: the customer upsert, the order
    row, the order-item rows and the stock decrements were all pending in
    the session. *)
Lemma create_order_rollback {A} `{!Money A} (faults : storage_op → bool)
    (db : DB.t A) (data : Request.t A) :
  (∀ e db', post_orders faults db data = (Rejected e, db') →
     e ≠ OrderFailed (StorageError SRefresh) → db' = db) ∧
  (∀ c ls op,
     valid_request db data c ls → gets_ok faults ls →
     op ∈ [SQuery; SFlushCustomer; SFlushOrder; SCommit] → faults op = true →
     ∃ e s',
       create_order_try faults data (begin db) = (Raise e, s') ∧
       create_order faults data (begin db) =
         (Rejected (OrderFailed e), begin db) ∧
       post_orders faults db data = (Rejected (OrderFailed e), db) ∧
       status_code (Rejected (A:=A) (OrderFailed e)) = 500) ∧
  (∀ c ls,
     valid_request db data c ls → gets_ok faults ls →
     faults SQuery = false → faults SFlushCustomer = false →
     faults SFlushOrder = false → faults SCommit = true →
     create_order_try faults data (begin db) =
       (Raise (StorageError SCommit), Session.mk db (placed db data c ls))).
Proof.
  assert (∀ c ls, valid_request db data c ls → gets_ok faults ls →
    create_order_try faults data (begin db) =
      persist_order faults data (Some c) (get (Request.payment_method data))
        (get_or (Request.notes data) "") (order_total ls) (lines_of ls)
        (begin db)) as Htry.
  { intros c ls [Hh Hls] Hg.
    rewrite (create_order_try_checked _ _ _ _ _ Hh).
    by rewrite (bind_run _ _ _ _ _
                  (check_items_run faults ls (begin db) Hls Hg)). }
  split; [|split].
  - intros e db'. apply post_orders_rejected.
  - intros c ls op Hv Hg Hop Hfault. specialize (Htry c ls Hv Hg).
    rewrite persist_order_cases in Htry by apply Hv. simpl in Htry.
    assert (∃ e s', create_order_try faults data (begin db) = (Raise e, s') ∧
                    Session.committed s' = db) as (e & s' & Hraise & Hcm).
    { rewrite Htry.
      destruct (faults SQuery) eqn:Hq; [by eauto|].
      destruct (faults SFlushCustomer) eqn:Hfc; [by eauto|].
      destruct (faults SFlushOrder) eqn:Hfo; [by eauto|].
      destruct (faults SCommit) eqn:Hc; [by eauto|].
      rewrite !elem_of_cons, elem_of_nil in Hop.
      destruct Hop as [->|[->|[->|[->|[]]]]]; congruence. }
    assert (create_order faults data (begin db) =
            (Rejected (OrderFailed e), begin db)) as Hrun.
    { unfold create_order. rewrite Hraise. unfold rollback. by rewrite Hcm. }
    exists e, s'. split; [done|]. split; [done|].
    split; [|done]. by rewrite (post_orders_session _ _ _ _ _ Hrun).
  - intros c ls Hv Hg Hq Hfc Hfo Hcm. rewrite (Htry c ls Hv Hg).
    rewrite persist_order_cases by apply Hv. simpl.
    by rewrite Hq, Hfc, Hfo, Hcm.
Qed.

(** At a concrete request: Ann orders three of "A" and the commit
    fails.  The [try] block raises, the handler answers 500, and neither
    the new customer, nor the order, nor its line, nor the lowered stock
    is left behind. *)
Lemma create_order_rollback_witness :
  ∃ e s',
    create_order_try commit_fails (order_of [line 1 3 10]) (begin shop)
      = (Raise e, s') ∧
    create_order commit_fails (order_of [line 1 3 10]) (begin shop)
      = (Rejected (OrderFailed e), begin shop) ∧
    post_orders commit_fails shop (order_of [line 1 3 10])
      = (Rejected (OrderFailed e), shop) ∧
    status_code (Rejected (A:=Z) (OrderFailed e)) = 500.
Proof.
  refine (proj1 (proj2 (create_order_rollback commit_fails shop
                          (order_of [line 1 3 10])))
            ann [line 1 3 10] SCommit _ _ _ _).
  - apply order_of_valid; [done|]. repeat constructor. by apply line_ok_A.
  - repeat constructor.
  - rewrite !elem_of_cons. tauto.
  - reflexivity.
Defined.

(** ** C5: the customer upsert *)

(** C5, the claim as stated fails: Ann is a customer already (same email,
    other name) and orders an item that does not exist.  The request is
    answered 404 and her row is not overwritten. *)
Lemma rejected_order_leaves_customer :
  Customer.email ann_before = cvalue ann "email" ∧
  Customer.first_name ann_before ≠ cvalue ann "first_name" ∧
  post_orders no_faults shop_with_ann (order_of [line 9 1 10])
    = (Rejected (ItemNotFound 9), shop_with_ann).
Proof. split; [reflexivity|]. split; [discriminate|reflexivity]. Qed.

(** C5, as amended.  For a request that passes all validation and is
    accepted: when a [Customer] row carries the submitted email, that row
    is overwritten in place with the request's values and the table keeps
    its length (no new row); when no row carries it, exactly one row is
    appended, with a fresh id and the request's values (a [country] given
    as [null] is stored as the default of the column).  A request that is
    rejected by a check, or that fails up to the commit, leaves the
    customer table as it was. *)
Theorem create_order_upsert {A} `{!Money A} (faults : storage_op → bool)
    (db : DB.t A) (data : Request.t A) :
  (∀ c ls, valid_request db data c ls → run_ok faults ls →
   ∃ oid total db',
    post_orders faults db data = (Created oid total, db') ∧
    ((∃ row, row ∈ DB.customers db ∧ Customer.email row = cvalue c "email") →
     ∃ i old,
       DB.customers db !! i = Some old ∧
       Customer.email old = cvalue c "email" ∧
       DB.customers db' = <[i := overwritten c old]> (DB.customers db) ∧
       length (DB.customers db') = length (DB.customers db)) ∧
    ((∀ row, row ∈ DB.customers db → Customer.email row ≠ cvalue c "email") →
     ∃ id,
       DB.customers db' = DB.customers db ++ [new_customer c id] ∧
       ∀ row, row ∈ DB.customers db → Customer.id row ≠ id)) ∧
  (∀ e db', post_orders faults db data = (Rejected e, db') →
     e ≠ OrderFailed (StorageError SRefresh) →
     DB.customers db' = DB.customers db).
Proof.
  split; last first.
  { intros e db' Hrun Hne.
    by rewrite (post_orders_rejected faults db data e db' Hrun Hne). }
  intros c ls Hv Hok.
  exists (placed_id db), (order_total ls), (placed db data c ls).
  split; [by apply post_orders_valid|].
  unfold placed, upserted. simpl.
  destruct (list_find _ (DB.customers db)) as [[i old]|] eqn:Hfind; simpl.
  - apply list_find_Some in Hfind as (Hi & Hem & _). split.
    + intros _. exists i, old. by rewrite length_insert.
    + intros Hnone. destruct (Hnone old); [|done].
      by eapply list_elem_of_lookup_2.
  - split.
    + intros (row & Hrow & Hem). exfalso.
      apply list_find_None in Hfind.
      by apply (proj1 (Forall_forall _ _) Hfind row).
    + intros _. eexists. split; [done|]. intros row Hrow.
      assert (Customer.id row < fresh_id (Customer.id <$> DB.customers db));
        [|lia].
      apply fresh_id_gt. by apply list_elem_of_fmap_2.
Qed.

(** C5, as amended, at concrete requests: Ann, a customer already, orders
    three of "A"; her row is overwritten and stays the only one.  At the
    shop that does not know her, with her country given as [null], one
    row is appended and its country is "TW". *)
Lemma create_order_upsert_witness :
  (∃ oid total db',
     post_orders no_faults shop_with_ann (order_of [line 1 3 10])
       = (Created oid total, db') ∧
     DB.customers db' = [overwritten ann ann_before]) ∧
  (∃ oid total db',
     post_orders no_faults shop
       (Request.mk (Val (<["country" := None]> ann)) (Val [line 1 3 10])
          (Val "cod") Absent Absent Absent)
       = (Created oid total, db') ∧
     Customer.country <$> DB.customers db' = [Some "TW"]).
Proof.
  split.
  - destruct (proj1 (create_order_upsert no_faults shop_with_ann
                (order_of [line 1 3 10])) ann [line 1 3 10])
      as (oid & total & db' & Hrun & Hexists & _).
    + apply order_of_valid; [done|]. repeat constructor. by apply line_ok_A.
    + apply storage_ok_run, no_faults_ok.
    + exists oid, total, db'. split; [exact Hrun|].
      destruct Hexists as (i & old & Hi & _ & Hcs & _).
      { exists ann_before. split; [apply list_elem_of_here|reflexivity]. }
      destruct i as [|i]; [|discriminate]. injection Hi as <-. exact Hcs.
  - destruct (proj1 (create_order_upsert no_faults shop
                (Request.mk (Val (<["country" := None]> ann))
                   (Val [line 1 3 10]) (Val "cod") Absent Absent Absent))
                (<["country" := None]> ann) [line 1 3 10])
      as (oid & total & db' & Hrun & _ & Hnew).
    + split.
      * repeat split; try done.
        unfold customer_ok, customer_required.
        repeat (constructor; [eexists; split; [reflexivity|done]|]).
        constructor.
      * repeat constructor. by apply line_ok_A.
    + apply storage_ok_run, no_faults_ok.
    + exists oid, total, db'. split; [exact Hrun|].
      destruct Hnew as (id & Hcs & _).
      { intros row Hrow. by apply elem_of_nil in Hrow. }
      rewrite Hcs. reflexivity.
Defined.

(** ** C6: the checks on a line item *)

(** C6, the claim as stated fails: a line item without the key [quantity]
    is not rejected; the quantity is taken to be 1, the order is accepted
    and one "A" leaves the stock. *)
Lemma absent_quantity_is_accepted :
  (post_orders no_faults shop
     (order_of [LineItem.mk (Val 1) Absent (Val 10)])).1 = Created 1 10 ∧
  Item.quantity_left <$>
    DB.items (post_orders no_faults shop
                (order_of [LineItem.mk (Val 1) Absent (Val 10)])).2 !! 1
    = Some 4.
Proof. split; reflexivity. Qed.

(** C6, as amended.  A request with a line item whose identifier or
    price is absent or null, or whose quantity is null, is never accepted,
    wherever the line item stands and whatever the storage does: it is
    answered with an error and the session is left as it was opened.  The
    error is a client error when the checks that precede the line items
    pass and no lookup of an earlier line item fails, and it is the
    incomplete-line-item error, status 400, when every earlier line item
    passes its checks.  A line item whose keys are there (an absent
    quantity counting as 1) is then checked for an unknown item, an
    inactive item and insufficient stock, in that order; each of these
    answers leaves the session as it was opened. *)
Theorem create_order_line_checks {A} `{!Money A} (faults : storage_op → bool)
    (db : DB.t A) (data : Request.t A) (ls : list (LineItem.t A))
    (l : LineItem.t A) :
  Request.items data = Val ls → l ∈ ls →
  (missing (LineItem.item_id l) ∨ LineItem.quantity l = Null ∨
   missing (LineItem.price l) →
     (∃ e, rejects faults db data e) ∧
     (∀ c pre post,
        ls = pre ++ l :: post → header_ok data c ls → gets_ok faults pre →
        ∃ e, rejects faults db data e ∧
             400 ≤ status_code (Rejected (A:=A) e) < 500) ∧
     (∀ c pre post,
        ls = pre ++ l :: post → header_ok data c ls →
        Forall (line_ok db) pre → gets_ok faults pre →
        rejects faults db data IncompleteItem ∧
        status_code (Rejected (A:=A) IncompleteItem) = 400)) ∧
  (∀ c pre post i q p,
     ls = pre ++ l :: post → header_ok data c ls →
     Forall (line_ok db) pre → gets_ok faults pre →
     complete l i q p → faults (SGet i) = false →
     (DB.items db !! i = None → rejects faults db data (ItemNotFound i)) ∧
     (∀ it, DB.items db !! i = Some it → Item.is_active it = false →
        rejects faults db data (ItemInactive (Item.name it))) ∧
     (∀ it, DB.items db !! i = Some it → Item.is_active it = true →
        Item.quantity_left it < q →
        rejects faults db data
          (InsufficientStock (Item.name it) (Item.quantity_left it)))).
Proof.
  intros Hls Hl. split.
  - intros Hmiss.
    assert (∀ i q p, ¬ complete l i q p) as Hn.
    { intros i q p (Hi & _ & Hq & _ & Hp & _).
      destruct Hmiss as [[Hm|Hm]|[Hm|[Hm|Hm]]]; destruct Hq as [Hq|[Hq _]];
        congruence. }
    split; [|split].
    + eapply create_order_bad_line; [done..|].
      intros (i & q & p & it & Hc & _). by apply (Hn i q p).
    + intros c pre post -> Hh Hg. by eapply incomplete_client_error.
    + intros c pre post -> Hh Hpre Hg. split; [|done].
      by eapply first_failure_incomplete.
  - intros c pre post i q p -> Hh Hpre Hg Hc Hf.
    by eapply first_failure_complete.
Qed.

(** C6, as amended, at concrete requests: a line item whose quantity is
    null is answered with the incomplete-line-item error; behind a line
    item for the unknown item 9 it is answered with a client error all the
    same; and a line item for seven of "A" (five in stock) is answered with
    the insufficient-stock error. *)
Lemma create_order_line_checks_witness :
  rejects no_faults shop (order_of [LineItem.mk (Val 1) Null (Val 10)])
    IncompleteItem ∧
  (∃ e, rejects no_faults shop
          (order_of [line 9 1 10; LineItem.mk (Val 1) Null (Val 10)]) e ∧
        400 ≤ status_code (Rejected (A:=Z) e) < 500) ∧
  rejects no_faults shop (order_of [line 1 7 10]) (InsufficientStock "A" 5).
Proof.
  split; [|split].
  - refine (proj1 (proj2 (proj2 (proj1 (create_order_line_checks no_faults shop
      (order_of [LineItem.mk (Val 1) Null (Val 10)])
      [LineItem.mk (Val 1) Null (Val 10)]
      (LineItem.mk (Val 1) Null (Val 10)) _ _) _))
      ann [] [] _ _ _ _)).
    + reflexivity.
    + apply list_elem_of_here.
    + right. by left.
    + reflexivity.
    + by apply order_of_header.
    + constructor.
    + constructor.
  - refine (proj1 (proj2 (proj1 (create_order_line_checks no_faults shop
      (order_of [line 9 1 10; LineItem.mk (Val 1) Null (Val 10)])
      [line 9 1 10; LineItem.mk (Val 1) Null (Val 10)]
      (LineItem.mk (Val 1) Null (Val 10)) _ _) _))
      ann [line 9 1 10] [] _ _ _).
    + reflexivity.
    + apply elem_of_cons. right. apply list_elem_of_here.
    + right. by left.
    + reflexivity.
    + by apply order_of_header.
    + by repeat constructor.
  - refine (proj2 (proj2 (proj2 (create_order_line_checks no_faults shop
      (order_of [line 1 7 10]) [line 1 7 10] (line 1 7 10) _ _)
      ann [] [] 1 7 10 _ _ _ _ _ _))
      (Item.mk "A" 5 true) _ _ _).
    + reflexivity.
    + apply list_elem_of_here.
    + reflexivity.
    + by apply order_of_header.
    + constructor.
    + constructor.
    + by apply line_complete.
    + reflexivity.
    + reflexivity.
    + reflexivity.
    + simpl. lia.
Defined.

(** ** C7: an unknown item *)

(** C7, the claim as stated fails: the line item naming the unknown item 9
    stands behind one that asks for more than the stock; the request is
    answered with the insufficient-stock error, status 400, not with the
    not-found condition. *)
Lemma unknown_item_behind_failed_line :
  DB.items shop !! 9 = None ∧
  post_orders no_faults shop (order_of [line 1 6 10; line 9 3 10])
    = (Rejected (InsufficientStock "A" 5), shop) ∧
  status_code (Rejected (A:=Z) (InsufficientStock "A" 5)) = 400.
Proof. repeat split; reflexivity. Qed.

(** C7, as amended.  A request with a line item whose identifier matches
    no item is never accepted: it is answered with an error and the session
    is left as it was opened (no customer, order or order-item row is
    written, no stock changes).  The error is the 404 naming the
    identifier when that line item is the first check to fail: the checks
    before the line items pass, every earlier line item passes, and the
    line item itself has a quantity and a price. *)
Theorem create_order_unknown_item {A} `{!Money A} (faults : storage_op → bool)
    (db : DB.t A) (data : Request.t A) (ls : list (LineItem.t A))
    (l : LineItem.t A) (i : Z) :
  Request.items data = Val ls → l ∈ ls →
  LineItem.item_id l = Val i → DB.items db !! i = None →
  (∃ e, rejects faults db data e) ∧
  (∀ c pre post q p,
     ls = pre ++ l :: post → header_ok data c ls →
     Forall (line_ok db) pre → storage_ok faults → complete l i q p →
     rejects faults db data (ItemNotFound i) ∧
     status_code (Rejected (A:=A) (ItemNotFound i)) = 404).
Proof.
  intros Hls Hl Hi Hnone. split.
  - eapply create_order_bad_line; [done..|].
    intros (i' & q & p & it & (Hi' & _) & Hit & _).
    rewrite Hi in Hi'. by simplify_eq.
  - intros c pre post q p -> Hh Hpre Hok Hc. split; [|done].
    by apply (first_failure_complete faults db data c pre l post i q p Hh Hpre
                (storage_ok_gets _ _ Hok) Hc (Hok _)).
Qed.

(** C7, as amended, at a concrete request: an order of the unknown item 9
    alone is answered 404 naming it, and nothing is written. *)
Lemma create_order_unknown_item_witness :
  rejects no_faults shop (order_of [line 9 3 10]) (ItemNotFound 9) ∧
  status_code (Rejected (A:=Z) (ItemNotFound 9)) = 404.
Proof.
  refine (proj2 (create_order_unknown_item no_faults shop
    (order_of [line 9 3 10]) [line 9 3 10] (line 9 3 10) 9 _ _ _ _)
    ann [] [] 3 10 _ _ _ _ _).
  - reflexivity.
  - apply list_elem_of_here.
  - reflexivity.
  - reflexivity.
  - reflexivity.
  - by apply order_of_header.
  - constructor.
  - apply no_faults_ok.
  - by apply line_complete.
Defined.

(** ** C8: distinct items keep the stock invariant *)



(** ** C9: a quantity or price of zero *)

(** C9, the claim as stated fails: the line item with quantity 0 stands
    behind one naming an unknown item; the request is answered 404, not
    with the incomplete-line-item error. *)
Lemma zero_quantity_behind_unknown_item :
  post_orders no_faults shop (order_of [line 9 3 10; line 1 0 10])
    = (Rejected (ItemNotFound 9), shop) ∧
  status_code (Rejected (A:=Z) (ItemNotFound 9)) = 404.
Proof. split; reflexivity. Qed.

(** C9, as amended.  A request with a line item whose quantity is present
    and 0, or whose price is present and zero, is never accepted: it is
    answered with an error and the session is left as it was opened.  The
    error is the incomplete-line-item error, status 400, whenever that
    line item is reached, that is when the checks before the line items
    pass and every earlier line item passes; whether the item exists, is
    active or is in stock plays no part. *)
Theorem create_order_zero_field {A} `{!Money A} (faults : storage_op → bool)
    (db : DB.t A) (data : Request.t A) (ls : list (LineItem.t A))
    (l : LineItem.t A) :
  Request.items data = Val ls → l ∈ ls →
  (LineItem.quantity l = Val 0 ∨
   ∃ p, LineItem.price l = Val p ∧ m_bool p = false) →
  (∃ e, rejects faults db data e) ∧
  (∀ c pre post,
     ls = pre ++ l :: post → header_ok data c ls →
     Forall (line_ok db) pre → gets_ok faults pre →
     rejects faults db data IncompleteItem ∧
     status_code (Rejected (A:=A) IncompleteItem) = 400).
Proof.
  intros Hls Hl Hzero.
  assert (∀ i q p, ¬ complete l i q p) as Hn.
  { intros i q p (_ & _ & Hq & Hq0 & Hp & Hp1).
    destruct Hzero as [Hz|(p' & Hp' & Hp0)].
    - destruct Hq as [Hq|[Hq _]]; rewrite Hz in Hq; by simplify_eq.
    - rewrite Hp in Hp'. simplify_eq. congruence. }
  split.
  - eapply create_order_bad_line; [done..|].
    intros (i & q & p & it & Hc & _). by apply (Hn i q p).
  - intros c pre post -> Hh Hpre Hg. split; [|done].
    by eapply first_failure_incomplete.
Qed.

(** C9, as amended, at concrete requests: zero of "A", and three of "A" at
    price 0, are answered with the incomplete-line-item error although "A"
    exists, is active and is in stock. *)
Lemma create_order_zero_field_witness :
  rejects no_faults shop (order_of [line 1 0 10]) IncompleteItem ∧
  rejects no_faults shop (order_of [line 1 3 0]) IncompleteItem ∧
  status_code (Rejected (A:=Z) IncompleteItem) = 400.
Proof.
  split; [|split; [|reflexivity]].
  - refine (proj1 (proj2 (create_order_zero_field no_faults shop
      (order_of [line 1 0 10]) [line 1 0 10] (line 1 0 10) _ _ _)
      ann [] [] _ _ _ _)).
    + reflexivity.
    + apply list_elem_of_here.
    + by left.
    + reflexivity.
    + by apply order_of_header.
    + constructor.
    + constructor.
  - refine (proj1 (proj2 (create_order_zero_field no_faults shop
      (order_of [line 1 3 0]) [line 1 3 0] (line 1 3 0) _ _ _)
      ann [] [] _ _ _ _)).
    + reflexivity.
    + apply list_elem_of_here.
    + right. exists 0. by split.
    + reflexivity.
    + by apply order_of_header.
    + constructor.
    + constructor.
Defined.

(** ** C10: the frame of the update branch *)



(** * Further properties of [create_order] *)

Section MoreShared.
Context {A : Type} `{!Money A}.
Implicit Types (faults : storage_op → bool) (db : DB.t A) (data : Request.t A).
Implicit Types (c : gmap string (option string)) (ls : list (LineItem.t A)).

Lemma rejects_post_orders faults db data e :
  rejects faults db data e → post_orders faults db data = (Rejected e, db).
Proof. intros Hrej. by rewrite (post_orders_session _ _ _ _ _ Hrej). Qed.


Lemma check_fields_first_failure c (pre : list string) f post (s : Session.t A) :
  Forall (field_ok c) pre → ¬ field_ok c f →
  for_each (pre ++ f :: post) tt (λ _, check_customer_field (A:=A) (Some c)) s =
    (Return (Rejected (MissingCustomerField f)), s).
Proof.
  intros Hpre Hf. induction Hpre as [|f0 pre Hf0 _ IH]; simpl app;
    rewrite for_each_cons.
  - destruct (check_customer_field_cases c f s) as [[Hok _]|[_ Hrun]]; [done|].
    unfold bind. by rewrite Hrun.
  - destruct (check_customer_field_cases c f0 s) as [[_ Hrun]|[Hn _]]; [|done].
    by rewrite (bind_run _ _ _ _ _ Hrun).
Qed.

End MoreShared.

(** ** The checks before the line items *)


(** X3.  A request whose [customer] is [null] passes the check of the
    required keys; the first [field not in customer_data] then raises, and
    the request is answered with the generic failure, status 500, not with
    a 400.  Nothing is written. *)
Theorem null_customer_fails {A} `{!Money A} (faults : storage_op → bool)
    (db : DB.t A) (data : Request.t A) :
  Request.customer data = Null →
  Request.items data ≠ Absent → Request.payment_method data ≠ Absent →
  rejects faults db data (OrderFailed TypeError) ∧
  status_code (Rejected (A:=A) (OrderFailed TypeError)) = 500.
Proof.
  intros Hc Hi Hp. split; [|done].
  unfold rejects, create_order, create_order_try.
  rewrite (bind_run _ _ (begin db) tt (begin db)); last first.
  { apply check_required_run; [by rewrite Hc|done..]. }
  by rewrite Hc.
Qed.

(** X5.  The customer fields are checked in the order [first_name],
    [last_name], [email], [phone], [address], [city]; the first one that is
    absent, null or the empty string is named in a 400, and nothing is
    written. *)
Theorem customer_field_rejected {A} `{!Money A} (faults : storage_op → bool)
    (db : DB.t A) (data : Request.t A) (c : gmap string (option string))
    (pre : list string) (f : string) (post : list string) :
  Request.customer data = Val c →
  Request.items data ≠ Absent → Request.payment_method data ≠ Absent →
  customer_required = pre ++ f :: post → Forall (field_ok c) pre →
  (c !! f = None ∨ c !! f = Some None ∨ c !! f = Some (Some "")) →
  rejects faults db data (MissingCustomerField f) ∧
  status_code (Rejected (A:=A) (MissingCustomerField f)) = 400.
Proof.
  intros Hc Hi Hp Hfields Hpre Hf. split; [|done].
  unfold rejects, create_order, create_order_try.
  rewrite (bind_run _ _ (begin db) tt (begin db)); last first.
  { apply check_required_run; [by rewrite Hc|done..]. }
  rewrite Hc. simpl get at 1. unfold check_customer. rewrite Hfields.
  unfold bind at 1. rewrite check_fields_first_failure; [done..|].
  intros (v & Hv & Hne). destruct Hf as [Hf|[Hf|Hf]]; rewrite Hf in Hv;
    by simplify_eq.
Qed.

(** X6.  A request with a complete customer whose [items] is [null] or
    the empty list is answered 400 (an order needs at least one item), and
    nothing is written. *)
Theorem empty_order_rejected {A} `{!Money A} (faults : storage_op → bool)
    (db : DB.t A) (data : Request.t A) (c : gmap string (option string)) :
  Request.customer data = Val c → customer_ok c →
  Request.payment_method data ≠ Absent →
  Request.items data = Null ∨ Request.items data = Val [] →
  rejects faults db data EmptyOrder ∧
  status_code (Rejected (A:=A) EmptyOrder) = 400.
Proof.
  intros Hc Hcok Hp Hi. split; [|done].
  unfold rejects, create_order, create_order_try.
  rewrite (bind_run _ _ (begin db) tt (begin db)); last first.
  { apply check_required_run; [by rewrite Hc| |done].
    destruct Hi as [Hi|Hi]; by rewrite Hi. }
  rewrite Hc. simpl get at 1.
  rewrite (bind_run _ _ (begin db) tt (begin db))
    by (by apply check_customer_run).
  destruct Hi as [Hi|Hi]; by rewrite Hi.
Qed.

Section MoreLemmas.
Context {A : Type} `{!Money A}.
Implicit Types (faults : storage_op → bool) (db : DB.t A) (data : Request.t A).
Implicit Types (c : gmap string (option string)) (ls : list (LineItem.t A)).

Lemma oversized_line_not_ok db (l : LineItem.t A) i q it :
  LineItem.item_id l = Val i → LineItem.quantity l = Val q →
  DB.items db !! i = Some it → Item.quantity_left it < q →
  ¬ line_ok db l.
Proof.
  intros Hi Hq Hit Hlt (i' & q' & p' & it' & (Hi' & _ & Hq' & _) & Hit' & _ & Hle).
  rewrite Hi in Hi'. rewrite Hq in Hq'.
  destruct Hq' as [Hq'|[Hq' _]]; simplify_eq. lia.
Qed.

Lemma fresh_id_new ids : fresh_id ids ∉ ids.
Proof. intros Hin. apply fresh_id_gt in Hin. lia. Qed.

Lemma NoDup_snoc {X} (l : list X) x : NoDup l → x ∉ l → NoDup (l ++ [x]).
Proof.
  intros Hl Hx. apply NoDup_app. split; [done|]. split; [|apply NoDup_singleton].
  intros y Hy ->%list_elem_of_singleton. done.
Qed.

Lemma rows_after_ids oid (ol : list (Line.t A)) (rows : list (OrderItem.t A)) :
  NoDup (OrderItem.id <$> rows) →
  NoDup (OrderItem.id <$> rows_after oid ol rows).
Proof.
  revert rows. induction ol as [|l ol IH]; intros rows Hnd; [done|].
  unfold rows_after in *. simpl. apply IH.
  rewrite fmap_app. simpl. apply NoDup_snoc; [done|]. apply fresh_id_new.
Qed.

Lemma upserted_ids c (cs : list Customer.t) :
  NoDup (Customer.id <$> cs) → NoDup (Customer.id <$> (upserted c cs).1).
Proof.
  intros Hnd. unfold upserted.
  destruct (list_find _ cs) as [[i old]|] eqn:Hfind; simpl.
  - apply list_find_Some in Hfind as (Hi & _ & _).
    rewrite list_fmap_insert. simpl.
    rewrite list_insert_id; [done|]. by rewrite list_lookup_fmap, Hi.
  - rewrite fmap_app. simpl. apply NoDup_snoc; [done|]. apply fresh_id_new.
Qed.

Lemma upserted_emails c (cs : list Customer.t) :
  NoDup (Customer.email <$> cs) → NoDup (Customer.email <$> (upserted c cs).1).
Proof.
  intros Hnd. unfold upserted.
  destruct (list_find _ cs) as [[i old]|] eqn:Hfind; simpl.
  - apply list_find_Some in Hfind as (Hi & _ & _).
    rewrite list_fmap_insert. simpl.
    rewrite list_insert_id; [done|]. by rewrite list_lookup_fmap, Hi.
  - rewrite fmap_app. simpl. apply NoDup_snoc; [done|].
    apply list_find_None in Hfind.
    intros (row & Hem & Hrow)%list_elem_of_fmap.
    by apply (proj1 (Forall_forall _ _) Hfind row).
Qed.

(** The customer of the order: a row of the table after the upsert, with
    the submitted email. *)
Lemma upserted_customer c (cs : list Customer.t) :
  ∃ row, row ∈ (upserted c cs).1 ∧ Customer.id row = (upserted c cs).2 ∧
         Customer.email row = cvalue c "email".
Proof.
  unfold upserted.
  destruct (list_find _ cs) as [[i old]|] eqn:Hfind; simpl.
  - apply list_find_Some in Hfind as (Hi & Hem & _).
    exists (overwritten c old). split; [|done].
    apply list_elem_of_lookup. exists i.
    apply list_lookup_insert_eq. by eapply lookup_lt_Some.
  - exists (new_customer c (fresh_id (Customer.id <$> cs))). split; [|done].
    apply elem_of_app. right. apply list_elem_of_here.
Qed.

(** The upsert keeps the ids that were in the table. *)
Lemma upserted_keeps_ids c (cs : list Customer.t) row :
  row ∈ cs → ∃ row', row' ∈ (upserted c cs).1 ∧ Customer.id row' = Customer.id row.
Proof.
  intros Hrow. unfold upserted.
  destruct (list_find _ cs) as [[i old]|] eqn:Hfind; simpl.
  - apply list_find_Some in Hfind as (Hi & _ & _).
    apply list_elem_of_lookup in Hrow as [j Hj].
    destruct (decide (i = j)) as [->|Hne].
    + exists (overwritten c old). split.
      * apply list_elem_of_lookup. exists j.
        apply list_lookup_insert_eq. by eapply lookup_lt_Some.
      * rewrite Hi in Hj. by simplify_eq.
    + exists row. split; [|done]. apply list_elem_of_lookup. exists j.
      by rewrite list_lookup_insert_ne.
  - exists row. split; [|done]. apply elem_of_app. by left.
Qed.

Lemma stock_after_is_Some ls (m : gmap Z Item.t) id :
  is_Some (stock_after (lines_of ls) m !! id) ↔ is_Some (m !! id).
Proof. rewrite stock_after_lookup. apply fmap_is_Some. Qed.

Lemma placed_stock_nonneg db data c ls :
  valid_request db data c ls → NoDup (line_item <$> ls) →
  stock_nonneg db → stock_nonneg (placed db data c ls).
Proof.
  intros [_ Hok] Hnd Hinv id it'. unfold placed. simpl.
  rewrite stock_after_lookup.
  destruct (DB.items db !! id) as [it|] eqn:Hit; [|done]. simpl.
  intros [= <-]. simpl.
  destruct (decide (id ∈ line_item <$> ls)) as [Hin|Hnin].
  - apply list_elem_of_fmap in Hin as (l & -> & Hl).
    rewrite ordered_NoDup by done.
    destruct (proj1 (Forall_forall _ _) Hok l Hl)
      as (i & q & p & it0 & Hc & Hit0 & _ & Hle).
    destruct (complete_line _ _ _ _ Hc) as (Hi & Hq & _).
    rewrite Hi, Hq in *. rewrite Hit in Hit0. simplify_eq. lia.
  - rewrite ordered_absent by done. specialize (Hinv id it Hit). lia.
Qed.

End MoreLemmas.

(** ** Line items the handler turns away, or lets through *)

(** X2.  A request with a line item naming an inactive item is never
    accepted and nothing is written; when that line item is the first
    check to fail, the answer is the 400 naming the item. *)
Theorem inactive_item_rejected {A} `{!Money A} (faults : storage_op → bool)
    (db : DB.t A) (data : Request.t A) (ls : list (LineItem.t A))
    (l : LineItem.t A) (i : Z) (it : Item.t) :
  Request.items data = Val ls → l ∈ ls →
  LineItem.item_id l = Val i → DB.items db !! i = Some it →
  Item.is_active it = false →
  (∃ e, post_orders faults db data = (Rejected e, db)) ∧
  (∀ c pre post q p,
     ls = pre ++ l :: post → header_ok data c ls →
     Forall (line_ok db) pre → storage_ok faults → complete l i q p →
     post_orders faults db data = (Rejected (ItemInactive (Item.name it)), db) ∧
     status_code (Rejected (A:=A) (ItemInactive (Item.name it))) = 400).
Proof.
  intros Hls Hl Hi Hit Hact. split.
  - destruct (create_order_bad_line faults db data ls l Hls Hl) as [e He].
    + intros (i' & q & p & it' & (Hi' & _) & Hit' & Hact' & _).
      rewrite Hi in Hi'. simplify_eq. congruence.
    + exists e. by apply rejects_post_orders.
  - intros c pre post q p -> Hh Hpre Hok Hc. split; [|done].
    apply rejects_post_orders.
    by apply (first_failure_complete faults db data c pre l post i q p Hh Hpre
                (storage_ok_gets _ _ Hok) Hc (Hok _)).
Qed.

(** X7.  The handler tests a quantity for truthiness and against the
    stock, not for its sign: an order of a negative quantity [q] of an
    item in stock is accepted, its total is [price * q], and the stock of
    the item goes up by [-q]. *)
Theorem negative_quantity_accepted {A} `{!Money A} (faults : storage_op → bool)
    (db : DB.t A) (data : Request.t A) (c : gmap string (option string))
    (l : LineItem.t A) (i q : Z) (p : A) (it : Item.t) :
  header_ok data c [l] → complete l i q p → q < 0 →
  DB.items db !! i = Some it → Item.is_active it = true →
  0 ≤ Item.quantity_left it → storage_ok faults →
  ∃ oid db',
    post_orders faults db data = (Created oid (m_add m_zero (m_mul p q)), db') ∧
    DB.items db' !! i =
      Some (set_quantity_left (Item.quantity_left it - q) it) ∧
    Item.quantity_left it < Item.quantity_left it - q.
Proof.
  intros Hh Hc Hq Hit Hact Hstock Hok.
  destruct (complete_line _ _ _ _ Hc) as (Hi & Hlq & Hlp).
  assert (valid_request db data c [l]) as Hv.
  { split; [done|]. constructor; [|constructor].
    exists i, q, p, it. repeat split; try done; try apply Hc. lia. }
  exists (placed_id db), (placed db data c [l]). split; [|split; [|lia]].
  - rewrite (post_orders_valid faults db data c [l] Hv (storage_ok_run _ _ Hok)).
    unfold order_total. simpl. by rewrite Hlq, Hlp.
  - change (DB.items (placed db data c [l]))
      with (stock_after (lines_of [l]) (DB.items db)).
    rewrite stock_after_lookup, Hit. simpl.
    rewrite Hi, Hlq, decide_True by done. do 2 f_equal. lia.
Qed.

(** ** Invariants of the tables *)

(** X8.  Whatever the request and its outcome, primary keys stay unique:
    the customer, order and order-item rows the handler inserts get ids no
    row of their table has. *)
Theorem create_order_keeps_keys_unique {A} `{!Money A}
    (faults : storage_op → bool) (db : DB.t A) (data : Request.t A) :
  keys_unique db → keys_unique (post_orders faults db data).2.
Proof.
  intros (Hc & Ho & Hoi).
  destruct (post_orders_db faults db data) as [->|(c & ls & _ & ->)]; [done|].
  unfold keys_unique, placed. simpl. split; [|split].
  - by apply upserted_ids.
  - rewrite fmap_app. simpl. apply NoDup_snoc; [done|]. apply fresh_id_new.
  - by apply rows_after_ids.
Qed.

(** X10.  Whatever the request and its outcome, customer emails stay
    unique: the upsert inserts a row only for an email no row carries. *)
Theorem create_order_keeps_emails_unique {A} `{!Money A}
    (faults : storage_op → bool) (db : DB.t A) (data : Request.t A) :
  emails_unique db → emails_unique (post_orders faults db data).2.
Proof.
  intros Hem.
  destruct (post_orders_db faults db data) as [->|(c & ls & _ & ->)]; [done|].
  unfold emails_unique, placed. simpl. by apply upserted_emails.
Qed.

(** X9.  Whatever the request and its outcome, the foreign keys keep
    holding: the order the handler inserts belongs to a customer row, its
    order items belong to it and to items of the catalogue, and no row
    that was referred to goes away. *)
Theorem create_order_keeps_references {A} `{!Money A}
    (faults : storage_op → bool) (db : DB.t A) (data : Request.t A) :
  references_ok db → references_ok (post_orders faults db data).2.
Proof.
  intros (Hoc & Hoo & Hoi).
  destruct (post_orders_db faults db data) as [->|(c & ls & [_ Hok] & ->)];
    [done|].
  unfold references_ok, placed. simpl.
  destruct (rows_after_app (placed_id db) ls (DB.order_items db))
    as (news & -> & Hnews).
  assert (∀ oi, oi ∈ news →
            OrderItem.order_id oi = placed_id db ∧
            ∃ l, l ∈ ls ∧ OrderItem.item_id oi = line_item l) as Hnew.
  { clear -Hnews. induction Hnews as [|l oi ls news (Ho & Hi & _) _ IH].
    - by intros oi ?%elem_of_nil.
    - intros oi' [->|Hin]%elem_of_cons.
      + split; [done|]. exists l. split; [apply list_elem_of_here|done].
      + destruct (IH oi' Hin) as (? & l' & ? & ?). split; [done|].
        exists l'. split; [by apply list_elem_of_further|done]. }
  split; [|split].
  - intros o [Ho|Ho]%elem_of_app;
      [|apply list_elem_of_singleton in Ho as ->].
    + destruct (Hoc o Ho) as (row & Hrow & <-).
      by apply upserted_keeps_ids.
    + destruct (upserted_customer c (DB.customers db)) as (row & Hrow & Hid & _).
      by exists row.
  - intros oi [Hin|Hin]%elem_of_app.
    + destruct (Hoo oi Hin) as (o & Ho & Hid). exists o.
      split; [|done]. apply elem_of_app. by left.
    + destruct (Hnew oi Hin) as [-> _]. eexists. split.
      * apply elem_of_app. right. apply list_elem_of_here.
      * done.
  - intros oi [Hin|Hin]%elem_of_app.
    + apply stock_after_is_Some. by apply Hoi.
    + destruct (Hnew oi Hin) as (_ & l & Hl & ->).
      apply stock_after_is_Some.
      destruct (proj1 (Forall_forall _ _) Hok l Hl)
        as (i & q & p & it & Hc & Hit & _).
      destruct (complete_line _ _ _ _ Hc) as (-> & _). by eexists.
Qed.


(** X12.  A request answered 201 has appended one row to the order table
    and touched no other order: the order whose id (new in the table) is
    in the answer, with the total of the answer as the [db.Float] column
    keeps it and status "pending", held by a customer row that carries the
    email of the request.  A request answered with an error has left the
    whole database as it was, with one exception: when the reload of the
    order after the commit fails, the answer is 500 although such a row
    has been appended and committed. *)
Theorem create_order_appends_pending_order {A} `{!Money A}
    (faults : storage_op → bool) (db : DB.t A) (data : Request.t A) :
  match post_orders faults db data with
  | (Created oid total, db') =>
      ∃ o c cust,
        DB.orders db' = DB.orders db ++ [o] ∧
        Order.id o = oid ∧ (oid ∉ Order.id <$> DB.orders db) ∧
        Order.total_amount o = m_store total ∧ Order.status o = "pending" ∧
        Request.customer data = Val c ∧ cust ∈ DB.customers db' ∧
        Customer.id cust = Order.customer_id o ∧
        Customer.email cust = cvalue c "email"
  | (Rejected e, db') =>
      db' = db ∨
      e = OrderFailed (StorageError SRefresh) ∧ faults SRefresh = true ∧
      ∃ o c cust,
        DB.orders db' = DB.orders db ++ [o] ∧
        (Order.id o ∉ Order.id <$> DB.orders db) ∧
        Order.status o = "pending" ∧
        Request.customer data = Val c ∧ cust ∈ DB.customers db' ∧
        Customer.id cust = Order.customer_id o ∧
        Customer.email cust = cvalue c "email"
  end.
Proof.
  destruct (post_orders_outcome faults db data)
    as [(c & ls & [(Hc & _) _] & _ & ->)
       |[[e ->]|(c & ls & [(Hc & _) _] & _ & Hrl & ->)]]; [|by left|];
    destruct (upserted_customer c (DB.customers db))
      as (cust & Hin & Hid & Hem).
  - eexists _, c, cust. split; [done|]. simpl.
    repeat split; try done. apply fresh_id_new.
  - right. split; [done|]. split; [done|].
    eexists _, c, cust. split; [done|]. simpl.
    repeat split; try done. apply fresh_id_new.
Qed.

(** ** Sequences of requests *)

(** X13.  Stock stays at or above zero along any sequence of requests,
    accepted or not and whatever the storage does at each of them, as long
    as no request names the same item in two of its line items. *)
Theorem orders_keep_stock_nonneg {A} `{!Money A}
    (reqs : list ((storage_op → bool) * Request.t A)) (db : DB.t A) :
  Forall (λ req, ∀ ls, Request.items req.2 = Val ls →
                       NoDup (line_item <$> ls)) reqs →
  stock_nonneg db → stock_nonneg (run_requests db reqs).
Proof.
  intros Hreqs. revert db.
  induction Hreqs as [|[faults data] reqs Hnd _ IH]; intros db Hinv; [done|].
  unfold run_requests in *. simpl. apply IH.
  destruct (post_orders_db faults db data) as [->|(c & ls & Hv & ->)]; [done|].
  apply placed_stock_nonneg; [done| |done].
  apply Hnd. apply Hv.
Qed.

(** X14.  The stock check of a request sees what earlier orders took: once
    an order of [q] of an item is accepted, a request with a line item for
    more than the remaining [quantity_left - q] of it is turned away and
    writes nothing. *)
Theorem second_order_sees_remaining_stock {A} `{!Money A}
    (faults : storage_op → bool) (db : DB.t A)
    (data : Request.t A) (c : gmap string (option string))
    (l : LineItem.t A) (i q : Z) (p : A) (it : Item.t)
    (data2 : Request.t A) (ls2 : list (LineItem.t A)) (l2 : LineItem.t A)
    (q2 : Z) :
  header_ok data c [l] → complete l i q p →
  DB.items db !! i = Some it → Item.is_active it = true →
  q ≤ Item.quantity_left it → storage_ok faults →
  Request.items data2 = Val ls2 → l2 ∈ ls2 →
  LineItem.item_id l2 = Val i → LineItem.quantity l2 = Val q2 →
  Item.quantity_left it - q < q2 →
  ∃ oid total db' e,
    post_orders faults db data = (Created oid total, db') ∧
    post_orders faults db' data2 = (Rejected e, db').
Proof.
  intros Hh Hc Hit Hact Hle Hok Hls2 Hl2 Hi2 Hq2 Hlt.
  destruct (complete_line _ _ _ _ Hc) as (Hi & Hlq & Hlp).
  assert (valid_request db data c [l]) as Hv.
  { split; [done|]. constructor; [|constructor]. by exists i, q, p, it. }
  destruct (create_order_bad_line faults (placed db data c [l]) data2 ls2 l2
              Hls2 Hl2) as [e He].
  { apply (oversized_line_not_ok _ l2 i q2
             (set_quantity_left (Item.quantity_left it - q) it)); try done.
    change (DB.items (placed db data c [l]))
      with (stock_after (lines_of [l]) (DB.items db)).
    rewrite stock_after_lookup, Hit. simpl.
    rewrite Hi, Hlq, decide_True by done. do 2 f_equal. lia. }
  exists (placed_id db), (order_total [l]), (placed db data c [l]), e.
  split.
  - apply post_orders_valid; [done|]. by apply storage_ok_run.
  - by apply rejects_post_orders.
Qed.

(** ** Examples *)

(** X2 at the shop: item "C" is off sale, and an order of one "C" is
    answered 400 naming it. *)
Lemma inactive_item_example :
  post_orders no_faults shop_with_retired (order_of [line 3 1 10])
    = (Rejected (ItemInactive "C"), shop_with_retired).
Proof.
  refine (proj1 (proj2 (inactive_item_rejected no_faults shop_with_retired
            (order_of [line 3 1 10]) [line 3 1 10] (line 3 1 10) 3
            (Item.mk "C" 4 false) _ _ _ _ _)
          ann [] [] 1 10 _ _ _ _ _)).
  - reflexivity.
  - apply list_elem_of_here.
  - reflexivity.
  - reflexivity.
  - reflexivity.
  - reflexivity.
  - by apply order_of_header.
  - constructor.
  - apply no_faults_ok.
  - by apply line_complete.
Defined.


(** X3 on a request with [customer: null]. *)
Lemma null_customer_example :
  rejects no_faults shop
    (Request.mk Null (Val [line 1 1 10]) (Val "cod") Absent Absent Absent)
    (OrderFailed TypeError) ∧
  status_code (Rejected (A:=Z) (OrderFailed TypeError)) = 500.
Proof.
  refine (null_customer_fails no_faults shop
            (Request.mk Null (Val [line 1 1 10]) (Val "cod") Absent Absent Absent)
            _ _ _).
  - reflexivity.
  - done.
  - done.
Defined.

(** X5 on Ann's data with an empty phone number. *)
Lemma customer_field_example :
  rejects no_faults shop
    (Request.mk (Val (<["phone" := Some ""]> ann)) (Val [line 1 1 10])
       (Val "cod") Absent Absent Absent)
    (MissingCustomerField "phone") ∧
  status_code (Rejected (A:=Z) (MissingCustomerField "phone")) = 400.
Proof.
  refine (customer_field_rejected no_faults shop
            (Request.mk (Val (<["phone" := Some ""]> ann)) (Val [line 1 1 10])
               (Val "cod") Absent Absent Absent)
            (<["phone" := Some ""]> ann)
            ["first_name"; "last_name"; "email"] "phone" ["address"; "city"]
            _ _ _ _ _ _).
  - reflexivity.
  - done.
  - done.
  - reflexivity.
  - repeat (constructor; [eexists; split; [reflexivity|done]|]). constructor.
  - right. right. reflexivity.
Defined.

(** X6 on Ann's order of no line item. *)
Lemma empty_order_example :
  rejects no_faults shop (order_of []) EmptyOrder ∧
  status_code (Rejected (A:=Z) EmptyOrder) = 400.
Proof.
  refine (empty_order_rejected no_faults shop (order_of []) ann _ _ _ _).
  - reflexivity.
  - apply ann_ok.
  - done.
  - right. reflexivity.
Defined.

(** X7 at the shop: an order of -3 of "A" is accepted with total -30 and
    raises the stock from 5 to 8. *)
Lemma negative_quantity_example :
  ∃ oid db',
    post_orders no_faults shop (order_of [line 1 (-3) 10])
      = (Created oid (-30), db') ∧
    DB.items db' !! 1 = Some (Item.mk "A" 8 true) ∧ 5 < 8.
Proof.
  refine (negative_quantity_accepted no_faults shop (order_of [line 1 (-3) 10])
            ann (line 1 (-3) 10) 1 (-3) 10 (Item.mk "A" 5 true) _ _ _ _ _ _ _).
  - by apply order_of_header.
  - by apply line_complete.
  - lia.
  - reflexivity.
  - reflexivity.
  - simpl. lia.
  - apply no_faults_ok.
Defined.

(** X8 on an order placed at the shop that knows Ann. *)
Lemma keys_unique_example :
  keys_unique (post_orders no_faults shop_with_ann (order_of [line 1 3 10])).2.
Proof.
  refine (create_order_keeps_keys_unique no_faults shop_with_ann
            (order_of [line 1 3 10]) _).
  split; [|split]; simpl; repeat constructor. by intros ?%elem_of_nil.
Defined.

(** X10 on an order placed at the shop that knows Ann. *)
Lemma emails_unique_example :
  emails_unique (post_orders no_faults shop_with_ann (order_of [line 1 3 10])).2.
Proof.
  refine (create_order_keeps_emails_unique no_faults shop_with_ann
            (order_of [line 1 3 10]) _).
  unfold emails_unique. simpl. repeat constructor. by intros ?%elem_of_nil.
Defined.

(** X9 on an order placed at the shop that knows Ann. *)
Lemma references_example :
  references_ok (post_orders no_faults shop_with_ann (order_of [line 1 3 10])).2.
Proof.
  refine (create_order_keeps_references no_faults shop_with_ann
            (order_of [line 1 3 10]) _).
  split; [|split]; simpl; by intros ? ?%elem_of_nil.
Defined.

(** X13 on four orders in a row: the second is turned away, the commit of
    the third fails, and the fourth is committed and answered 500. *)
Lemma orders_keep_stock_example :
  stock_nonneg shop ∧
  stock_nonneg (run_requests shop
    [(no_faults, order_of [line 1 3 10]);
     (no_faults, order_of [line 1 3 10]);
     (commit_fails, order_of [line 2 1 5]);
     (reload_fails, order_of [line 2 1 5; line 1 2 10])]).
Proof.
  split; [apply shop_stock_nonneg|].
  refine (orders_keep_stock_nonneg
    [(no_faults, order_of [line 1 3 10]);
     (no_faults, order_of [line 1 3 10]);
     (commit_fails, order_of [line 2 1 5]);
     (reload_fails, order_of [line 2 1 5; line 1 2 10])]
    shop _ _).
  - repeat constructor; intros ls [= <-]; simpl; repeat constructor;
      rewrite ?elem_of_cons, ?elem_of_nil; intros H; by repeat destruct H as [H|H].
  - apply shop_stock_nonneg.
Defined.

(** X14 at the shop: after an order of three of the five "A", a second
    order of three is turned away. *)
Lemma second_order_example :
  ∃ oid total db' e,
    post_orders no_faults shop (order_of [line 1 3 10]) = (Created oid total, db') ∧
    post_orders no_faults db' (order_of [line 1 3 10]) = (Rejected e, db').
Proof.
  refine (second_order_sees_remaining_stock no_faults shop
            (order_of [line 1 3 10]) ann (line 1 3 10) 1 3 10 (Item.mk "A" 5 true)
            (order_of [line 1 3 10]) [line 1 3 10] (line 1 3 10) 3
            _ _ _ _ _ _ _ _ _ _ _).
  - by apply order_of_header.
  - by apply line_complete.
  - reflexivity.
  - reflexivity.
  - simpl. lia.
  - apply no_faults_ok.
  - reflexivity.
  - apply list_elem_of_here.
  - reflexivity.
  - reflexivity.
  - simpl. lia.
Defined.

(** * Reading an order back, and changing its status *)

Section OrdersLemmas.
Context {A : Type} `{!Money A}.
Implicit Types (db : DB.t A) (faults : order_op → bool).

Lemma fetch_ok faults {X} op (x : X) : orders_ok faults → fetch faults op x = Some x.
Proof. intros Hok. unfold fetch. by rewrite Hok. Qed.

Lemma list_find_snoc {X} (P : X → Prop) `{∀ x, Decision (P x)} (l : list X) y :
  Forall (λ x, ¬ P x) l → P y → list_find P (l ++ [y]) = Some (length l, y).
Proof.
  intros Hl Hy. rewrite list_find_app_r by by apply list_find_None.
  simpl. by rewrite decide_True.
Qed.

(** The primary key finds the row itself. *)
Lemma list_find_key {X} (key : X → Z) (l : list X) (i : nat) (x : X) :
  NoDup (key <$> l) → l !! i = Some x →
  list_find (λ y, key y = key x) l = Some (i, x).
Proof.
  intros Hnd Hi. apply list_find_Some. split; [done|]. split; [done|].
  intros j y Hj Hlt Heq.
  assert (j = i); [|lia].
  apply (NoDup_lookup (key <$> l) j i (key x)); [done|..].
  - by rewrite list_lookup_fmap, Hj, <- Heq.
  - by rewrite list_lookup_fmap, Hi.
Qed.

(** A row rewritten in place, keeping what [P] looks at, is found where
    the old row was. *)
Lemma list_find_insert_same {X} (P : X → Prop) `{∀ x, Decision (P x)}
    (l : list X) (i : nat) (x y : X) :
  l !! i = Some x → (P y ↔ P x) →
  list_find P (<[i := y]> l) =
    (λ jz, (jz.1, if decide (jz.1 = i) then y else jz.2)) <$> list_find P l.
Proof.
  revert i. induction l as [|x0 l IH]; intros [|i] Hi Hiff; simplify_eq/=.
  - destruct (decide (P y)) as [Hy|Hy], (decide (P x)) as [Hx|Hx];
      try done; try tauto.
    by destruct (list_find P l) as [[j z]|].
  - destruct (decide (P x0)); [done|].
    rewrite (IH i Hi Hiff). destruct (list_find P l) as [[j z]|]; simpl; [|done].
    by destruct (decide (j = i)); [rewrite decide_True by lia
                                  |rewrite decide_False by lia].
Qed.

(** [get_order] when no storage interaction raises. *)
Lemma get_order_try_ok faults db order_id :
  orders_ok faults →
  get_order_try faults db order_id =
    match order_by_id db order_id with
    | None => Some OrderMissing
    | Some (_, order) =>
        order_items ← mapM (order_item_view faults db) (order_items_of db order);
        customer ← list_find (λ c, Customer.id c = Order.customer_id order)
                      (DB.customers db);
        Some (OrderFound (OrderView.mk
          (Order.id order) (Order.total_amount order) (Order.status order)
          (Order.delivery_method order) (Order.store_id order)
          (Order.store_name order) (Order.store_address order)
          (Order.payment_method order) (Order.notes order)
          (customer_view customer.2) order_items))
    end.
Proof.
  intros Hok. unfold get_order_try. rewrite (fetch_ok faults _ _ Hok). simpl.
  destruct (order_by_id db order_id) as [[i order]|]; [|done].
  rewrite !(fetch_ok faults _ _ Hok). simpl.
  by destruct (mapM _ _) as [order_items|].
Qed.

Lemma order_item_view_ok faults db (oi : OrderItem.t A) it :
  orders_ok faults → DB.items db !! OrderItem.item_id oi = Some it →
  order_item_view faults db oi =
    Some (ItemView.mk (OrderItem.id oi) (Item.name it) (OrderItem.quantity oi)
            (OrderItem.price_at_time oi)).
Proof.
  intros Hok Hit. unfold order_item_view. rewrite (fetch_ok faults _ _ Hok). simpl.
  by rewrite Hit.
Qed.

(** The views of the rows an accepted order has inserted. *)
Lemma placed_item_views faults db oid ls (news : list (OrderItem.t A)) m :
  orders_ok faults → Forall (line_ok db) ls → Forall2 (row_of oid) ls news →
  (∀ id it, DB.items db !! id = Some it →
     ∃ it', DB.items m !! id = Some it' ∧ Item.name it' = Item.name it) →
  ∃ views, mapM (order_item_view faults m) news = Some views ∧
    Forall2 (λ l iv, ∃ it, DB.items db !! line_item l = Some it ∧
                ItemView.item_name iv = Item.name it ∧
                ItemView.quantity iv = line_quantity l ∧
                ItemView.price iv = m_store (line_price l)) ls views.
Proof.
  intros Hok Hls Hrows Hm.
  induction Hrows as [|l oi ls' news (_ & Hi & Hq & Hp) _ IH].
  { exists []. split; [done|constructor]. }
  apply Forall_cons in Hls as [(i & q & p & it & Hc & Hit & _) Hls'].
  destruct (complete_line _ _ _ _ Hc) as (Hli & _).
  destruct (IH Hls') as (views & Hviews & Hall).
  destruct (Hm i it Hit) as (it' & Hit' & Hname).
  eexists (_ :: views). split.
  - simpl. rewrite (order_item_view_ok _ _ _ it'); [|done|by rewrite Hi, Hli].
    simpl. by rewrite Hviews.
  - constructor; [|done]. exists it. rewrite Hli. simpl.
    by rewrite Hname, Hq, Hp.
Qed.

(** The customer row of an accepted order, found by its primary key. *)
Lemma upserted_find c (cs : list Customer.t) :
  NoDup (Customer.id <$> cs) →
  ∃ i row,
    list_find (λ x, Customer.id x = (upserted c cs).2) (upserted c cs).1
      = Some (i, row) ∧
    customer_view row =
      [("first_name", cvalue c "first_name"); ("last_name", cvalue c "last_name");
       ("email", cvalue c "email"); ("phone", cvalue c "phone");
       ("address", cvalue c "address"); ("city", cvalue c "city");
       ("postal_code", cvalue_or c "postal_code" "");
       ("country", country_after c cs)].
Proof.
  intros Hnd. unfold upserted, country_after.
  destruct (list_find _ cs) as [[i old]|] eqn:Hfind; simpl.
  - apply list_find_Some in Hfind as (Hi & Hem & _).
    exists i, (overwritten c old). split.
    + change (Customer.id old) with (Customer.id (overwritten c old)).
      apply list_find_key.
      * rewrite list_fmap_insert. simpl.
        rewrite list_insert_id; [done|]. by rewrite list_lookup_fmap, Hi.
      * apply list_lookup_insert_eq. by apply lookup_lt_Some in Hi.
    + unfold customer_view. simpl. rewrite Hem, decide_True; [done|].
      rewrite <- Hem. apply list_elem_of_fmap_2.
      by eapply list_elem_of_lookup_2.
  - exists (length cs), (new_customer c (fresh_id (Customer.id <$> cs))).
    split.
    + apply list_find_snoc; [|done].
      apply Forall_forall. intros x Hx Heq.
      apply (fresh_id_new (Customer.id <$> cs)). rewrite <- Heq.
      by apply list_elem_of_fmap_2.
    + unfold customer_view. simpl. rewrite decide_False; [done|].
      intros (x & Heq & Hx)%list_elem_of_fmap.
      apply list_find_None in Hfind.
      by apply (proj1 (Forall_forall _ _) Hfind x Hx).
Qed.

End OrdersLemmas.

(** ** [get_order] *)

(** X15.  An order that has just been accepted can be read back: on a
    database with unique keys and sound references, [get_order] on the id
    that [create_order] returned answers 200 with that id, the total of the
    answer as the [db.Float] column keeps it, status "pending", the
    payment method and notes of the request, the customer fields of the
    request (an absent [postal_code] reads as the empty string, an absent
    [country] as "TW", and so does a [country] given as [null] unless the
    customer was there already) and one entry per submitted line item, in
    request order, with the quantity submitted, the price submitted as
    the [db.Float] column keeps it and the name of the item. *)
Theorem placed_order_reads_back {A} `{!Money A}
    (faults : storage_op → bool) (ofaults : order_op → bool)
    (db : DB.t A) (data : Request.t A)
    (c : gmap string (option string)) (ls : list (LineItem.t A)) :
  valid_request db data c ls → run_ok faults ls → orders_ok ofaults →
  keys_unique db → references_ok db →
  ∃ oid db' v,
    post_orders faults db data = (Created oid (order_total ls), db') ∧
    get_order ofaults db' oid = OrderFound v ∧
    order_reply_code (get_order ofaults db' oid) = 200 ∧
    OrderView.id v = oid ∧
    OrderView.total_amount v = m_store (order_total ls) ∧
    OrderView.status v = "pending" ∧
    OrderView.payment_method v = get (Request.payment_method data) ∧
    OrderView.notes v = get_or (Request.notes data) "" ∧
    OrderView.customer v =
      [("first_name", cvalue c "first_name"); ("last_name", cvalue c "last_name");
       ("email", cvalue c "email"); ("phone", cvalue c "phone");
       ("address", cvalue c "address"); ("city", cvalue c "city");
       ("postal_code", cvalue_or c "postal_code" "");
       ("country", country_after c (DB.customers db))] ∧
    Forall2 (λ l iv, ∃ it, DB.items db !! line_item l = Some it ∧
                ItemView.item_name iv = Item.name it ∧
                ItemView.quantity iv = line_quantity l ∧
                ItemView.price iv = m_store (line_price l))
      ls (OrderView.items v).
Proof.
  intros Hv Hrun Hok (Hcs & _ & _) (_ & Hown & _).
  pose proof (post_orders_valid faults db data c ls Hv Hrun) as Hpost.
  destruct (rows_after_app (placed_id db) ls (DB.order_items db))
    as (news & Hrows & Hnews).
  destruct (placed_item_views ofaults db (placed_id db) ls news
              (placed db data c ls) Hok (proj2 Hv) Hnews) as (views & Hviews & Hall).
  { intros id it Hit. unfold placed. simpl. rewrite stock_after_lookup, Hit.
    simpl. by eexists. }
  destruct (upserted_find c (DB.customers db) Hcs) as (i & row & Hfind & Hrow).
  assert (get_order_try ofaults (placed db data c ls) (placed_id db) =
    Some (OrderFound (OrderView.mk (placed_id db) (m_store (order_total ls))
      "pending"
      (Order.delivery_method (order_row data (placed_id db)
         (upserted c (DB.customers db)).2 (order_total ls)))
      (Order.store_id (order_row data (placed_id db)
         (upserted c (DB.customers db)).2 (order_total ls)))
      (Order.store_name (order_row data (placed_id db)
         (upserted c (DB.customers db)).2 (order_total ls)))
      (Order.store_address (order_row data (placed_id db)
         (upserted c (DB.customers db)).2 (order_total ls)))
      (get (Request.payment_method data)) (get_or (Request.notes data) "")
      (customer_view row) views))) as Hget.
  { rewrite get_order_try_ok by done.
    unfold order_by_id, placed at 1. simpl DB.orders.
    rewrite list_find_snoc; [|
      apply Forall_forall; intros o Ho; by apply placed_id_fresh|done].
    unfold order_items_of. simpl Order.id.
    replace (filter _ (DB.order_items (placed db data c ls))) with news.
    2: { unfold placed. simpl DB.order_items. rewrite Hrows, filter_app.
         rewrite filter_none, filter_all; [done|by eapply rows_order_id|].
         apply Forall_forall. intros oi Hoi Heq.
         destruct (Hown oi Hoi) as (o & Ho & Hid).
         apply (placed_id_fresh db o Ho). congruence. }
    rewrite Hviews. simpl.
    change (DB.customers (placed db data c ls))
      with (upserted c (DB.customers db)).1.
    by rewrite Hfind. }
  exists (placed_id db), (placed db data c ls). eexists.
  split; [done|]. unfold get_order. rewrite Hget. simpl.
  split; [done|]. repeat (split; [done|]). done.
Qed.

(** X16.  On a database with unique keys and sound references, and a
    storage layer that does not fail, every order of the table can be
    read: [get_order] on its id answers 200 with its total and status, the
    fields of its customer and one entry per order item of the order. *)
Theorem get_order_found {A} (faults : order_op → bool) (db : DB.t A)
    (o : Order.t A) :
  orders_ok faults → keys_unique db → references_ok db → o ∈ DB.orders db →
  ∃ v cust,
    get_order faults db (Order.id o) = OrderFound v ∧
    OrderView.id v = Order.id o ∧
    OrderView.total_amount v = Order.total_amount o ∧
    OrderView.status v = Order.status o ∧
    cust ∈ DB.customers db ∧ Customer.id cust = Order.customer_id o ∧
    OrderView.customer v = customer_view cust ∧
    ItemView.id <$> OrderView.items v =
      OrderItem.id <$> order_items_of db o.
Proof.
  intros Hok (_ & Hos & _) (Hoc & _ & Hoi) Ho.
  apply list_elem_of_lookup in Ho as [i Hi].
  pose proof (list_find_key Order.id _ i o Hos Hi) as Hfind.
  destruct (Hoc o (list_elem_of_lookup_2 _ _ _ Hi)) as (c0 & Hc0 & Hid0).
  destruct (list_find_elem_of (λ c, Customer.id c = Order.customer_id o)
              (DB.customers db) c0 Hc0 Hid0) as [[j cust] Hcust].
  assert (∃ views, mapM (order_item_view faults db) (order_items_of db o)
                     = Some views ∧
                   ItemView.id <$> views = OrderItem.id <$> order_items_of db o)
    as (views & Hviews & Hids).
  { assert (Forall (λ oi, oi ∈ DB.order_items db) (order_items_of db o)) as Hin.
    { apply Forall_forall. intros oi Hoi'.
      by apply list_elem_of_filter in Hoi' as [_ ?]. }
    revert Hin. generalize (order_items_of db o). intros rows Hin.
    induction Hin as [|oi rows Hoi' _ IH]; [by exists []|].
    destruct IH as (views & Hviews & Hids).
    destruct (Hoi oi Hoi') as [it Hit].
    eexists (_ :: views). split.
    - simpl. rewrite (order_item_view_ok _ _ _ it) by done. simpl.
      by rewrite Hviews.
    - rewrite !fmap_cons. by rewrite Hids. }
  exists (OrderView.mk (Order.id o) (Order.total_amount o) (Order.status o)
    (Order.delivery_method o) (Order.store_id o) (Order.store_name o)
    (Order.store_address o) (Order.payment_method o) (Order.notes o)
    (customer_view cust) views), cust.
  apply list_find_Some in Hcust as Hcust'. destruct Hcust' as (Hj & Hjid & _).
  split; [|repeat split; try done; by eapply list_elem_of_lookup_2].
  unfold get_order. rewrite get_order_try_ok by done.
  unfold order_by_id. rewrite Hfind, Hviews. simpl. by rewrite Hcust.
Qed.

(** X17.  [get_order] on an id no order carries answers 404; on an order
    whose customer row is gone, or one of whose order items refers to an
    item that is gone, it answers 500, whatever the storage does. *)
Theorem get_order_missing_or_dangling {A} (faults : order_op → bool)
    (db : DB.t A) (order_id : Z) :
  (order_id ∉ (Order.id <$> DB.orders db) → faults OGetOrder = false →
     get_order faults db order_id = OrderMissing ∧
     order_reply_code (get_order faults db order_id) = 404) ∧
  (∀ i o, order_by_id db order_id = Some (i, o) →
     Order.customer_id o ∉ (Customer.id <$> DB.customers db) ∨
     (∃ oi, oi ∈ DB.order_items db ∧ OrderItem.order_id oi = Order.id o ∧
            DB.items db !! OrderItem.item_id oi = None) →
     get_order faults db order_id = OrderError ∧
     order_reply_code (get_order faults db order_id) = 500).
Proof.
  split.
  - intros Hnin Hf.
    assert (get_order faults db order_id = OrderMissing) as ->; [|done].
    unfold get_order, get_order_try, fetch. rewrite Hf. simpl.
    unfold order_by_id.
    replace (list_find _ (DB.orders db)) with (@None (nat * Order.t A)); [done|].
    symmetry. apply list_find_None, Forall_forall. intros o Ho Heq.
    apply Hnin. rewrite <- Heq. by apply list_elem_of_fmap_2.
  - intros i o Hfind Hbad.
    assert (get_order faults db order_id = OrderError) as ->; [|done].
    unfold get_order, get_order_try, fetch.
    destruct (faults OGetOrder); [done|]. simpl. rewrite Hfind.
    destruct (faults OLoadOrderItems); [done|]. simpl.
    destruct Hbad as [Hc|(oi & Hoi & Hoid & Hit)].
    + destruct (mapM _ _); [|done]. simpl.
      destruct (faults OLoadCustomer); [done|]. simpl.
      replace (list_find _ (DB.customers db))
        with (@None (nat * Customer.t)); [done|].
      symmetry. apply list_find_None, Forall_forall. intros c0 Hc0 Heq.
      apply Hc. rewrite <- Heq. by apply list_elem_of_fmap_2.
    + rewrite (mapM_None_2 (order_item_view faults db)); [done|].
      apply Exists_exists. exists oi. split.
      * by apply list_elem_of_filter.
      * unfold order_item_view, fetch.
        destruct (faults _); [done|]. simpl. by rewrite Hit.
Qed.

(** ** [update_order_status] *)

Section StatusLemmas.
Context {A : Type}.
Implicit Types (db : DB.t A) (faults : order_op → bool).

Lemma valid_status_Some v s :
  valid_status v = Some s ↔ v = JString s ∧ s ∈ valid_statuses.
Proof.
  unfold valid_status. destruct v as [s'|b]; [|by split; [|intros [? _]]].
  case_bool_decide as Hin; split; try done.
  - by intros [= ->].
  - by intros [[= ->] _].
  - intros [[= ->] ?]. done.
Qed.

Lemma valid_status_truthy s :
  s ∈ valid_statuses → truthy (Some (JString s)) = Some (JString s).
Proof.
  intros Hin. unfold valid_statuses in Hin.
  repeat (apply elem_of_cons in Hin as [->|Hin]; [done|]).
  by apply elem_of_nil in Hin.
Qed.

(** Every outcome of the handler, on a session just opened. *)
Lemma put_order_status_cases faults (admins : list Admin.t) db
    (admin_id order_id : Z) (data : StatusBody) :
  (∃ i o new,
     faults OGetAdmin = false ∧ faults OGetOrder = false ∧
     faults OCommitStatus = false ∧
     is_Some (list_find (λ a, Admin.id a = admin_id) admins) ∧
     order_by_id db order_id = Some (i, o) ∧
     data = StatusObject (Val (JString new)) ∧ new ∈ valid_statuses ∧
     put_order_status faults admins db admin_id order_id data =
       (if faults ORefresh then StatusFailed
        else StatusUpdated (Order.id o) (Order.status o) new,
        with_orders (λ os, <[i := set_status new o]> os) db)) ∨
  (∃ r, (∀ id old new, r ≠ StatusUpdated id old new) ∧
     put_order_status faults admins db admin_id order_id data = (r, db)).
Proof.
  unfold put_order_status, update_order_status, update_order_status_try.
  destruct (faults OGetAdmin) eqn:Hf1; [right; by exists StatusFailed|].
  destruct (list_find _ admins) as [adm|] eqn:Hadm;
    [|right; by exists AdminNotFound].
  destruct (faults OGetOrder) eqn:Hf2; [right; by exists StatusFailed|].
  change (Session.working (begin db)) with db.
  destruct (order_by_id db order_id) as [[i o]|] eqn:Ho;
    [|right; by exists OrderNotFound].
  destruct data as [|status]; [right; by exists StatusFailed|].
  destruct (truthy (get status)) as [v|] eqn:Hv;
    [|right; by exists StatusRequired].
  destruct (valid_status v) as [new|] eqn:Hnew;
    [|right; by exists InvalidStatus].
  apply valid_status_Some in Hnew as [-> Hin].
  destruct (faults OCommitStatus) eqn:Hf3; [right; by exists StatusFailed|].
  left. exists i, o, new. repeat (split; [done|]).
  split; [|by destruct (faults ORefresh)].
  destruct status as [| |v]; simplify_eq/=.
  unfold truthy in Hv. destruct (py_bool v); by simplify_eq.
Qed.

(** An admin and an order that exist, a status of the list and a storage
    layer that does not fail: the status is set. *)
Lemma put_order_status_ok faults (admins : list Admin.t) db (admin_id : Z)
    (i : nat) (o : Order.t A) (new : string) :
  orders_ok faults → admin_id ∈ (Admin.id <$> admins) →
  order_by_id db (Order.id o) = Some (i, o) → new ∈ valid_statuses →
  put_order_status faults admins db admin_id (Order.id o)
    (StatusObject (Val (JString new)))
  = (StatusUpdated (Order.id o) (Order.status o) new,
     with_orders (λ os, <[i := set_status new o]> os) db).
Proof.
  intros Hok Hadm Ho Hnew.
  apply list_elem_of_fmap in Hadm as (adm & Hid & Hadm).
  destruct (list_find_elem_of (λ a, Admin.id a = admin_id) admins adm Hadm
              (eq_sym Hid)) as [[j adm'] Hfind].
  unfold put_order_status, update_order_status, update_order_status_try.
  rewrite !Hok, Hfind. change (Session.working (begin db)) with db.
  rewrite Ho. simpl get. rewrite (valid_status_truthy new Hnew).
  by rewrite (proj2 (valid_status_Some (JString new) new) (conj eq_refl Hnew)).
Qed.

End StatusLemmas.

(** X18.  [update_order_status] answers 200 only for an admin that
    exists, an order that exists and a [status] that is one of "pending",
    "confirmed", "shipped", "delivered", "cancelled"; the answer carries
    the status the order had, and the database differs in the status of
    that one row only.  In every other case it answers an error, and the
    database is as it was, with one exception: when the reload of the
    order after the commit fails, the answer is 500 although the status
    has been changed. *)
Theorem update_order_status_outcome {A} (faults : order_op → bool)
    (admins : list Admin.t) (db : DB.t A) (admin_id order_id : Z)
    (data : StatusBody) :
  match put_order_status faults admins db admin_id order_id data with
  | (StatusUpdated id old new, db') =>
      id = order_id ∧ status_reply_code (StatusUpdated id old new) = 200 ∧
      new ∈ valid_statuses ∧ data = StatusObject (Val (JString new)) ∧
      admin_id ∈ (Admin.id <$> admins) ∧
      ∃ i o, DB.orders db !! i = Some o ∧ Order.id o = order_id ∧
             Order.status o = old ∧
             db' = with_orders (λ os, <[i := set_status new o]> os) db
  | (r, db') =>
      400 ≤ status_reply_code r ∧
      (db' = db ∨
       r = StatusFailed ∧ faults ORefresh = true ∧
       ∃ i o new, DB.orders db !! i = Some o ∧ Order.id o = order_id ∧
                  new ∈ valid_statuses ∧
                  db' = with_orders (λ os, <[i := set_status new o]> os) db)
  end.
Proof.
  destruct (put_order_status_cases faults admins db admin_id order_id data)
    as [(i & o & new & _ & _ & _ & [[j adm] Hadm] & Ho & Hd & Hnew & ->)
       |(r & Hr & ->)].
  - apply list_find_Some in Ho as (Hi & Hid & _).
    apply list_find_Some in Hadm as (Hj & Hjid & _).
    destruct (faults ORefresh) eqn:Hf.
    + split; [simpl; lia|]. right. split; [done|]. split; [done|].
      by exists i, o, new.
    + repeat (split; [done|]). split.
      * rewrite <- Hjid. apply list_elem_of_fmap_2.
        by eapply list_elem_of_lookup_2.
      * by exists i, o.
  - destruct r as [id old new| | | | |]; try (split; [simpl; lia|by left]).
    by destruct (Hr id old new).
Qed.

(** X19.  The handler knows no order between the statuses: for an admin
    and an order that exist and a storage layer that does not fail, every
    one of the five statuses is accepted whatever the status the order has
    (a delivered or cancelled order can be set back to "pending", and
    setting the status an order already has is answered 200 as well). *)
Theorem any_status_transition {A} (faults : order_op → bool)
    (admins : list Admin.t) (db : DB.t A) (admin_id : Z)
    (i : nat) (o : Order.t A) (new : string) :
  orders_ok faults → admin_id ∈ (Admin.id <$> admins) →
  order_by_id db (Order.id o) = Some (i, o) → new ∈ valid_statuses →
  put_order_status faults admins db admin_id (Order.id o)
    (StatusObject (Val (JString new)))
  = (StatusUpdated (Order.id o) (Order.status o) new,
     with_orders (λ os, <[i := set_status new o]> os) db).
Proof. apply put_order_status_ok. Qed.

(** X20.  What [update_order_status] rejects before it writes: for an
    admin and an order that exist, a [status] that is absent, [null], the
    empty string or another falsy value is answered 400 (status required),
    and any other value that is not one of the five statuses, also one
    that differs from them in case only, is answered 400 (invalid status);
    an unknown admin is answered 404 before the order or the body is
    looked at.  The database is left as it was. *)
Theorem update_order_status_rejects {A} (faults : order_op → bool)
    (admins : list Admin.t) (db : DB.t A) (admin_id order_id : Z)
    (status : field json_value) :
  faults OGetAdmin = false → faults OGetOrder = false →
  (admin_id ∉ (Admin.id <$> admins) →
     ∀ data, put_order_status faults admins db admin_id order_id data
             = (AdminNotFound, db)) ∧
  (admin_id ∈ (Admin.id <$> admins) →
   order_id ∈ (Order.id <$> DB.orders db) →
     (truthy (get status) = None →
        put_order_status faults admins db admin_id order_id (StatusObject status)
        = (StatusRequired, db)) ∧
     (∀ v, truthy (get status) = Some v →
        (∀ s, v = JString s → s ∉ valid_statuses) →
        put_order_status faults admins db admin_id order_id (StatusObject status)
        = (InvalidStatus, db))).
Proof.
  intros Hf1 Hf2. split.
  - intros Hnin data.
    unfold put_order_status, update_order_status, update_order_status_try.
    rewrite Hf1.
    replace (list_find _ admins) with (@None (nat * Admin.t)); [done|].
    symmetry. apply list_find_None, Forall_forall. intros a Ha Heq.
    apply Hnin. rewrite <- Heq. by apply list_elem_of_fmap_2.
  - intros Hadm Hord.
    apply list_elem_of_fmap in Hadm as (adm & Hid & Hadm).
    destruct (list_find_elem_of (λ a, Admin.id a = admin_id) admins adm Hadm
                (eq_sym Hid)) as [[j adm'] Hfind].
    apply list_elem_of_fmap in Hord as (o & Hoid & Ho).
    destruct (list_find_elem_of (λ o, Order.id o = order_id) (DB.orders db) o Ho
                (eq_sym Hoid)) as [[i o'] Hofind].
    split.
    + intros Hnone.
      unfold put_order_status, update_order_status, update_order_status_try.
      rewrite Hf1, Hf2, Hfind. unfold order_by_id.
      change (Session.working (begin db)) with db.
      by rewrite Hofind, Hnone.
    + intros v Hv Hbad.
      unfold put_order_status, update_order_status, update_order_status_try.
      rewrite Hf1, Hf2, Hfind. unfold order_by_id.
      change (Session.working (begin db)) with db.
      rewrite Hofind, Hv.
      destruct (valid_status v) as [s|] eqn:Hs; [|done].
      apply valid_status_Some in Hs as [-> Hin]. by destruct (Hbad s).
Qed.

(** X21.  After a status update that was answered 200, [get_order] on the
    order answers what it answered before with the new status in place of
    the old one, and on every other id exactly what it answered before. *)
Theorem status_update_reads_back {A} (faults ofaults : order_op → bool)
    (admins : list Admin.t) (db db' : DB.t A) (admin_id order_id : Z)
    (data : StatusBody) (id : Z) (old new : string) :
  put_order_status faults admins db admin_id order_id data
    = (StatusUpdated id old new, db') →
  get_order ofaults db' order_id = with_status new (get_order ofaults db order_id) ∧
  ∀ other, other ≠ order_id →
    get_order ofaults db' other = get_order ofaults db other.
Proof.
  intros Hput.
  destruct (put_order_status_cases faults admins db admin_id order_id data)
    as [(i & o & new' & _ & _ & _ & _ & Ho & _ & _ & Heq)|(r & Hr & Heq)];
    rewrite Heq in Hput; [|by destruct (Hr id old new); simplify_eq].
  destruct (faults ORefresh); simplify_eq.
  pose proof Ho as Ho'. apply list_find_Some in Ho' as (Hi & Hid & _).
  assert (∀ k, order_by_id (with_orders (λ os, <[i := set_status new o]> os) db) k
               = (λ jz, (jz.1, if decide (jz.1 = i) then set_status new o else jz.2))
                   <$> order_by_id db k) as Hfind.
  { intros k. unfold order_by_id. simpl.
    by apply (list_find_insert_same _ _ i o). }
  split.
  - unfold get_order, get_order_try. rewrite Hfind, Ho. simpl.
    rewrite decide_True by done.
    unfold fetch, order_items_of. simpl.
    destruct (ofaults OGetOrder); [done|]. simpl.
    destruct (ofaults OLoadOrderItems); [done|]. simpl.
    change (order_item_view ofaults
              (with_orders (λ os, <[i := set_status new o]> os) db))
      with (order_item_view ofaults db).
    destruct (mapM _ _); [|done]. simpl.
    destruct (ofaults OLoadCustomer); [done|]. simpl.
    by destruct (list_find _ (DB.customers db)) as [[j cust]|].
  - intros other Hne. unfold get_order, get_order_try. rewrite Hfind.
    destruct (order_by_id db other) as [[j z]|] eqn:Hother; [|done].
    simpl. rewrite decide_False; [done|].
    intros ->. apply list_find_Some in Hother as (Hj & Hjid & _).
    congruence.
Qed.

(** X22.  A status update, whatever its answer, keeps primary keys unique
    and references sound, and touches no item, customer or order item and
    no id, customer or total of an order. *)
Theorem status_update_keeps_integrity {A} (faults : order_op → bool)
    (admins : list Admin.t) (db db' : DB.t A) (admin_id order_id : Z)
    (data : StatusBody) (r : StatusReply) :
  put_order_status faults admins db admin_id order_id data = (r, db') →
  (keys_unique db → keys_unique db') ∧
  (references_ok db → references_ok db') ∧
  DB.items db' = DB.items db ∧ DB.customers db' = DB.customers db ∧
  DB.order_items db' = DB.order_items db ∧
  (λ o, (Order.id o, Order.customer_id o, Order.total_amount o))
    <$> DB.orders db' =
  (λ o, (Order.id o, Order.customer_id o, Order.total_amount o))
    <$> DB.orders db.
Proof.
  intros Hput.
  destruct (put_order_status_cases faults admins db admin_id order_id data)
    as [(i & o & new & _ & _ & _ & _ & Ho & _ & _ & Heq)|(r' & _ & Heq)];
    rewrite Heq in Hput; simplify_eq; [|done].
  apply list_find_Some in Ho as (Hi & _ & _). simpl.
  assert (∀ {X} (f : Order.t A → X), f (set_status new o) = f o →
            f <$> <[i := set_status new o]> (DB.orders db) = f <$> DB.orders db)
    as Hfmap.
  { intros X f Hf. rewrite list_fmap_insert, Hf.
    apply list_insert_id. by rewrite list_lookup_fmap, Hi. }
  split; [|split; [|by rewrite !Hfmap]].
  - intros (Hc & Hos & Hoi). split; [done|]. split; [|done].
    simpl. by rewrite Hfmap.
  - intros (Hoc & Hoo & Hoi). split; [|split; [|done]]; simpl.
    + intros o' Ho'. apply list_elem_of_lookup in Ho' as [j Hj].
      destruct (decide (j = i)) as [->|Hne].
      * rewrite list_lookup_insert_eq in Hj by by eapply lookup_lt_Some.
        simplify_eq. simpl. apply Hoc. by eapply list_elem_of_lookup_2.
      * rewrite list_lookup_insert_ne in Hj by done.
        apply Hoc. by eapply list_elem_of_lookup_2.
    + intros oi Hoi'. destruct (Hoo oi Hoi') as (o' & Ho' & Hid).
      apply list_elem_of_lookup in Ho' as [j Hj].
      destruct (decide (j = i)) as [->|Hne].
      * exists (set_status new o). simplify_eq. split; [|done].
        apply list_elem_of_lookup. exists i.
        apply list_lookup_insert_eq. by eapply lookup_lt_Some.
      * exists o'. split; [|done]. apply list_elem_of_lookup. exists j.
        by rewrite list_lookup_insert_ne.
Qed.

(** ** Examples *)

Lemma no_order_faults_ok : orders_ok no_order_faults.
Proof. done. Qed.

Lemma shop_keys_unique : keys_unique shop.
Proof. repeat split; constructor. Qed.

Lemma shop_references_ok : references_ok shop.
Proof. repeat split; by intros ? ?%elem_of_nil. Qed.

Lemma shop_with_order_keys : keys_unique shop_with_order.
Proof.
  repeat split; simpl; repeat constructor; by intros ?%elem_of_nil.
Qed.

Lemma shop_with_order_references : references_ok shop_with_order.
Proof.
  split; [|split]; intros x ->%list_elem_of_singleton.
  - eexists. split; [apply list_elem_of_here|done].
  - eexists. split; [apply list_elem_of_here|done].
  - by eexists.
Qed.

(** X15 at the shop: Ann, with her country given as [null], orders one
    "A" at 9007199254740993.  The answer carries that total; the order
    reads back with the total 9007199254740992, status "pending" and the
    country "TW". *)
Lemma placed_order_example :
  ∃ oid db' v,
    post_orders no_faults shop
      (Request.mk (Val (<["country" := None]> ann))
         (Val [line 1 1 9007199254740993]) (Val "cod") Absent Absent Absent)
      = (Created oid 9007199254740993, db') ∧
    get_order no_order_faults db' oid = OrderFound v ∧
    OrderView.total_amount v = 9007199254740992 ∧
    OrderView.status v = "pending" ∧
    last (OrderView.customer v) = Some ("country", Some "TW").
Proof.
  destruct (placed_order_reads_back no_faults no_order_faults shop
              (Request.mk (Val (<["country" := None]> ann))
                 (Val [line 1 1 9007199254740993]) (Val "cod")
                 Absent Absent Absent)
              (<["country" := None]> ann) [line 1 1 9007199254740993])
    as (oid & db' & v & Hpost & Hget & _ & _ & Htotal & Hstatus & _ & _
        & Hcust & _).
  - split.
    + repeat split; try done.
      unfold customer_ok, customer_required.
      repeat (constructor; [eexists; split; [reflexivity|done]|]).
      constructor.
    + constructor; [|constructor]. by apply line_ok_A.
  - apply storage_ok_run, no_faults_ok.
  - apply no_order_faults_ok.
  - apply shop_keys_unique.
  - apply shop_references_ok.
  - exists oid, db', v. split; [exact Hpost|]. split; [exact Hget|].
    split; [exact Htotal|]. split; [exact Hstatus|].
    rewrite Hcust. reflexivity.
Defined.

(** X16 on the order of [shop_with_order]. *)
Lemma get_order_example :
  ∃ v cust,
    get_order no_order_faults shop_with_order 1 = OrderFound v ∧
    OrderView.id v = 1 ∧ OrderView.total_amount v = 30 ∧
    OrderView.status v = "pending" ∧
    cust ∈ DB.customers shop_with_order ∧ Customer.id cust = 1 ∧
    OrderView.customer v = customer_view cust ∧
    ItemView.id <$> OrderView.items v = [1].
Proof.
  refine (get_order_found no_order_faults shop_with_order
            (order_row (order_of [line 1 3 10]) 1 1 30) _ _ _ _).
  - apply no_order_faults_ok.
  - apply shop_with_order_keys.
  - apply shop_with_order_references.
  - apply list_elem_of_here.
Defined.

(** X17 on an id that [shop_with_order] does not have. *)
Lemma get_order_missing_example :
  get_order no_order_faults shop_with_order 7 = OrderMissing ∧
  order_reply_code (get_order no_order_faults shop_with_order 7) = 404.
Proof.
  refine (proj1 (get_order_missing_or_dangling no_order_faults
                   shop_with_order 7) _ _).
  - intros Hin%list_elem_of_singleton. vm_compute in Hin. discriminate.
  - reflexivity.
Defined.

(** X19: a delivered order is set back to "pending". *)
Lemma any_status_example :
  put_order_status no_order_faults [root]
    (with_orders (λ os, set_status "delivered" <$> os) shop_with_order) 1 1
    (StatusObject (Val (JString "pending")))
  = (StatusUpdated 1 "delivered" "pending", shop_with_order).
Proof.
  refine (any_status_transition no_order_faults [root]
            (with_orders (λ os, set_status "delivered" <$> os) shop_with_order)
            1 0%nat
            (set_status "delivered" (order_row (order_of [line 1 3 10]) 1 1 30))
            "pending" _ _ _ _).
  - apply no_order_faults_ok.
  - apply list_elem_of_here.
  - reflexivity.
  - apply list_elem_of_here.
Defined.

(** X20: "Shipped" with a capital is not one of the statuses. *)
Lemma status_rejects_example :
  put_order_status no_order_faults [root] shop_with_order 1 1
    (StatusObject (Val (JString "Shipped")))
  = (InvalidStatus, shop_with_order).
Proof.
  refine (proj2 (proj2 (update_order_status_rejects no_order_faults [root]
            shop_with_order 1 1 (Val (JString "Shipped")) _ _) _ _)
          (JString "Shipped") _ _).
  - reflexivity.
  - reflexivity.
  - apply list_elem_of_here.
  - apply list_elem_of_here.
  - reflexivity.
  - intros s [= <-] Hin. unfold valid_statuses in Hin.
    repeat (apply elem_of_cons in Hin as [Hin|Hin]; [discriminate|]).
    by apply elem_of_nil in Hin.
Defined.

(** X21 on the order of [shop_with_order], set to "shipped". *)
Lemma status_reads_back_example :
  get_order no_order_faults
    (with_orders (λ os, set_status "shipped" <$> os) shop_with_order) 1
  = with_status "shipped" (get_order no_order_faults shop_with_order 1).
Proof.
  refine (proj1 (status_update_reads_back no_order_faults no_order_faults [root]
            shop_with_order
            (with_orders (λ os, set_status "shipped" <$> os) shop_with_order)
            1 1 (StatusObject (Val (JString "shipped"))) 1 "pending" "shipped" _)).
  reflexivity.
Defined.

(** X22 on the order of [shop_with_order], set to "shipped". *)
Lemma status_integrity_example :
  keys_unique (put_order_status no_order_faults [root] shop_with_order 1 1
                 (StatusObject (Val (JString "shipped")))).2.
Proof.
  refine (proj1 (status_update_keeps_integrity no_order_faults [root]
            shop_with_order _ 1 1 (StatusObject (Val (JString "shipped"))) _
            _) _).
  - apply surjective_pairing.
  - apply shop_with_order_keys.
Defined.

(** * Names of uploaded files *)

Lemma rsplit1_no_sep sep s : str_contains sep s = false → rsplit1 sep s = [s].
Proof.
  induction s as [|c s IH]; simpl; [done|].
  intros [Hc Hs]%orb_false_elim. by rewrite (IH Hs), Hc.
Qed.

Lemma rsplit1_last sep stem ext :
  str_contains sep ext = false →
  rsplit1 sep (stem +:+ String sep ext) = [stem; ext].
Proof.
  intros Hext. induction stem as [|c stem IH]; simpl.
  - by rewrite (rsplit1_no_sep _ _ Hext), bool_decide_true.
  - change (String.append stem (String sep ext)) with (stem +:+ String sep ext).
    by rewrite IH.
Qed.

Lemma str_contains_app sep stem ext :
  str_contains sep (stem +:+ String sep ext) = true.
Proof.
  induction stem as [|c stem IH]; simpl.
  - by rewrite bool_decide_true.
  - change (String.append stem (String sep ext)) with (stem +:+ String sep ext).
    rewrite IH. apply orb_true_r.
Qed.

Lemma str_contains_split sep s :
  str_contains sep s = true →
  ∃ stem ext, s = stem +:+ String sep ext ∧ str_contains sep ext = false.
Proof.
  induction s as [|c s IH]; simpl; [done|].
  destruct (str_contains sep s) eqn:Hs.
  - intros _. destruct (IH eq_refl) as (stem & ext & -> & Hext).
    by exists (String c stem), ext.
  - rewrite orb_false_r. intros ->%bool_decide_eq_true. by exists EmptyString, s.
Qed.

Lemma allowed_extensions ext :
  ext ∈ ALLOWED_EXTENSIONS ↔
  ext = "png" ∨ ext = "jpg" ∨ ext = "jpeg" ∨ ext = "gif" ∨ ext = "webp".
Proof.
  unfold ALLOWED_EXTENSIONS. rewrite !elem_of_union, !elem_of_singleton. tauto.
Qed.

(** X23.  Only what follows the last dot of the name counts, and upper and
    lower case count alike: a name [stem.ext], where [ext] has no dot, is
    allowed exactly when [ext] in lower case is one of png, jpg, jpeg, gif,
    webp, whatever [stem] is — empty, or with extensions of its own. *)
Theorem allowed_file_last_extension (stem ext : string) :
  str_contains "."%char ext = false →
  allowed_file (stem +:+ "." +:+ ext) =
    Some (bool_decide (lower ext ∈ ALLOWED_EXTENSIONS)) ∧
  (allowed_file (stem +:+ "." +:+ ext) = Some true ↔
   lower ext = "png" ∨ lower ext = "jpg" ∨ lower ext = "jpeg" ∨
   lower ext = "gif" ∨ lower ext = "webp").
Proof.
  intros Hext.
  assert (allowed_file (stem +:+ "." +:+ ext) =
          Some (bool_decide (lower ext ∈ ALLOWED_EXTENSIONS))) as Heq.
  { unfold allowed_file.
    change (stem +:+ "." +:+ ext) with (stem +:+ String "."%char ext).
    by rewrite str_contains_app, rsplit1_last. }
  split; [done|]. rewrite Heq, <- allowed_extensions. split.
  - intros [= H]. by apply bool_decide_eq_true in H.
  - intros H. by rewrite bool_decide_true.
Qed.

(** X24.  [allowed_file] never raises: the test for a dot guards the
    [[1]].  A name without a dot is not allowed, and a name that is allowed
    ends in a dot and one of the five extensions, in some mix of upper and
    lower case. *)
Theorem allowed_file_total (filename : string) :
  ∃ b, allowed_file filename = Some b ∧
    (str_contains "."%char filename = false → b = false) ∧
    (b = true → ∃ stem ext,
       filename = stem +:+ "." +:+ ext ∧ lower ext ∈ ALLOWED_EXTENSIONS).
Proof.
  unfold allowed_file. destruct (str_contains "."%char filename) eqn:Hdot.
  - destruct (str_contains_split _ _ Hdot) as (stem & ext & -> & Hext).
    rewrite rsplit1_last by done. simpl. eexists. split; [done|].
    split; [done|]. intros H%bool_decide_eq_true. by exists stem, ext.
  - exists false. by repeat split.
Qed.

(** X23 on two names with two extensions each. *)
Lemma allowed_file_example :
  allowed_file "shell.php.PNG" = Some true ∧
  allowed_file "photo.png.exe" = Some false.
Proof.
  split.
  - exact (proj1 (allowed_file_last_extension "shell.php" "PNG" eq_refl)).
  - exact (proj1 (allowed_file_last_extension "photo.png" "exe" eq_refl)).
Defined.

(** * Admin accounts *)

Section AdminLemmas.
Variable generate_password_hash : string → string → string.
Variable check_password_hash : string → string → bool.
Implicit Types (faults : admin_op → bool) (admins : list Admin.t).

Lemma given_Some f s : given f = Some s ↔ f = Val s ∧ s ≠ "".
Proof.
  unfold given, truthy. destruct f as [| |v]; simpl.
  - split; [done|by intros [? _]].
  - split; [done|by intros [? _]].
  - destruct v as [|a v]; simpl; split.
    + done.
    + intros [[= <-] Hne]. by destruct Hne.
    + by intros [= <-].
    + by intros [[= <-] _].
Qed.

Lemma list_find_absent {X Y} `{EqDecision Y} (key : X → Y) (l : list X) (y : Y) :
  list_find (λ x, key x = y) l = None ↔ y ∉ key <$> l.
Proof.
  rewrite list_find_None, Forall_forall. split.
  - intros Hl (x & -> & Hx)%list_elem_of_fmap. by apply (Hl x).
  - intros Hnin x Hx <-. apply Hnin. by apply list_elem_of_fmap_2.
Qed.

(** Every outcome of [admin_register]. *)
Lemma admin_register_cases faults salt admins data :
  (∃ u e p,
     data = BodyObject (Val u) (Val e) (Val p) ∧ u ≠ "" ∧ e ≠ "" ∧ p ≠ "" ∧
     (u ∉ Admin.username <$> admins) ∧ (e ∉ Admin.email <$> admins) ∧
     admin_register generate_password_hash faults salt admins data =
       (Registered,
        admins ++ [Admin.mk (fresh_id (Admin.id <$> admins)) u e
                     (generate_password_hash salt p)])) ∨
  (∃ r, r ≠ Registered ∧
     admin_register generate_password_hash faults salt admins data = (r, admins)).
Proof.
  unfold admin_register.
  destruct data as [| |username email password];
    [right; by exists MissingFields|right; by exists RegisterCrashed|].
  destruct (given username) as [u|] eqn:Hu; [|right; by exists MissingFields].
  destruct (given email) as [e|] eqn:He; [|right; by exists MissingFields].
  destruct (given password) as [p|] eqn:Hp; [|right; by exists MissingFields].
  apply given_Some in Hu as [-> Hu], He as [-> He], Hp as [-> Hp].
  destruct (faults AQueryUsername); [right; by exists RegisterCrashed|].
  destruct (list_find _ admins) eqn:Hfu; [right; by exists UsernameExists|].
  destruct (faults AQueryEmail); [right; by exists RegisterCrashed|].
  destruct (list_find (λ a, Admin.email a = e) admins) eqn:Hfe;
    [right; by exists EmailExists|].
  destruct (faults ACommit); [right; by exists RegisterCrashed|].
  left. exists u, e, p. repeat (split; [done|]).
  apply list_find_absent in Hfu, Hfe. done.
Qed.

(** What a login that is answered 200 has found. *)
Lemma admin_login_logged_in faults admins data identity id name :
  admin_login_api check_password_hash faults admins data
    = LoggedIn identity id name →
  identity = id ∧
  ∃ a e p, a ∈ admins ∧ Admin.id a = id ∧ Admin.username a = name ∧
    data = BodyObject (Val name) e (Val p) ∧
    check_password_hash (Admin.password_hash a) p = true.
Proof.
  unfold admin_login_api.
  destruct data as [| |username email password]; try done.
  destruct (given username) as [u|] eqn:Hu; [|done].
  destruct (given password) as [p|] eqn:Hp; [|done].
  apply given_Some in Hu as [-> Hu], Hp as [-> Hp].
  destruct (faults AQueryUsername); [done|].
  destruct (list_find _ admins) as [[i a]|] eqn:Hfind; [|done].
  destruct (check_password_hash _ _) eqn:Hcheck; [|done].
  intros [= <- <- <-]. split; [done|].
  apply list_find_Some in Hfind as (Hi & Hname & _).
  exists a, email, p. repeat split; try done.
  - by eapply list_elem_of_lookup_2.
  - by rewrite Hname.
Qed.

End AdminLemmas.

(** X25.  [admin_register] either answers 201 and appends one account,
    with a new id, the username and email of the request, both unused so
    far, and the hash of the password; or it answers an error and leaves
    the table as it was.  It never changes or removes an account. *)
Theorem admin_register_outcome
    (generate_password_hash : string → string → string)
    (faults : admin_op → bool) (salt : string) (admins : list Admin.t)
    (data : AdminBody) :
  match admin_register generate_password_hash faults salt admins data with
  | (Registered, admins') =>
      ∃ u e p, data = BodyObject (Val u) (Val e) (Val p) ∧
        (u ∉ Admin.username <$> admins) ∧ (e ∉ Admin.email <$> admins) ∧
        (fresh_id (Admin.id <$> admins) ∉ Admin.id <$> admins) ∧
        admins' = admins ++ [Admin.mk (fresh_id (Admin.id <$> admins)) u e
                               (generate_password_hash salt p)]
  | (r, admins') => admins' = admins ∧ 400 ≤ register_code r
  end.
Proof.
  destruct (admin_register_cases generate_password_hash faults salt admins data)
    as [(u & e & p & Hd & _ & _ & _ & Hu & He & ->)|(r & Hr & ->)].
  - exists u, e, p. repeat (split; [done|]). split; [|done]. apply fresh_id_new.
  - destruct r; try done; by split.
Qed.

(** X26.  Whatever the request and its outcome, [admin_register] keeps
    the ids, usernames and emails of the accounts unique. *)
Theorem admin_register_keeps_unique
    (generate_password_hash : string → string → string)
    (faults : admin_op → bool) (salt : string) (admins : list Admin.t)
    (data : AdminBody) :
  admins_unique admins →
  admins_unique
    (admin_register generate_password_hash faults salt admins data).2.
Proof.
  intros (Hid & Hu & He).
  destruct (admin_register_cases generate_password_hash faults salt admins data)
    as [(u & e & p & _ & _ & _ & _ & Hnu & Hne & ->)|(r & _ & ->)]; [|done].
  unfold admins_unique. simpl. rewrite !fmap_app. simpl.
  split; [|split]; apply NoDup_snoc; try done. apply fresh_id_new.
Qed.

(** X27.  A registration with a username that is taken is answered 400
    and so is one with an email that is taken; the username is looked at
    first.  The table is left as it was: the account that holds the name
    keeps its email and its password. *)
Theorem admin_register_taken
    (generate_password_hash : string → string → string)
    (faults : admin_op → bool) (salt : string) (admins : list Admin.t)
    (u e p : string) :
  admins_ok faults → u ≠ "" → e ≠ "" → p ≠ "" →
  (u ∈ (Admin.username <$> admins) →
     admin_register generate_password_hash faults salt admins
       (BodyObject (Val u) (Val e) (Val p)) = (UsernameExists, admins)) ∧
  (u ∉ (Admin.username <$> admins) → e ∈ (Admin.email <$> admins) →
     admin_register generate_password_hash faults salt admins
       (BodyObject (Val u) (Val e) (Val p)) = (EmailExists, admins)) ∧
  register_code UsernameExists = 400 ∧ register_code EmailExists = 400.
Proof.
  intros Hok Hu He Hp.
  assert (given (Val u) = Some u ∧ given (Val e) = Some e ∧
          given (Val p) = Some p) as (Hgu & Hge & Hgp).
  { by rewrite !given_Some. }
  split; [|split; [|done]].
  - intros Hin. unfold admin_register. rewrite Hgu, Hge, Hgp, !Hok.
    destruct (list_find _ admins) eqn:Hf; [done|].
    by apply list_find_absent in Hf.
  - intros Hnin Hin. unfold admin_register. rewrite Hgu, Hge, Hgp, !Hok.
    rewrite (proj2 (list_find_absent Admin.username admins u) Hnin).
    destruct (list_find _ admins) eqn:Hf; [done|].
    by apply list_find_absent in Hf.
Qed.

(** X28.  An account that has just been registered can log in: when the
    hash of a password checks against that password, a login with the
    username and password of an accepted registration is answered 200 with
    the id of the new account, which no other account has. *)
Theorem register_then_login
    (generate_password_hash : string → string → string)
    (check_password_hash : string → string → bool)
    (faults lfaults : admin_op → bool) (salt : string)
    (admins admins' : list Admin.t) (u e p : string) (e' : field string) :
  (∀ salt p, check_password_hash (generate_password_hash salt p) p = true) →
  lfaults AQueryUsername = false →
  admin_register generate_password_hash faults salt admins
    (BodyObject (Val u) (Val e) (Val p)) = (Registered, admins') →
  ∃ id,
    admin_login_api check_password_hash lfaults admins'
      (BodyObject (Val u) e' (Val p)) = LoggedIn id id u ∧
    id ∈ (Admin.id <$> admins') ∧ id ∉ (Admin.id <$> admins).
Proof.
  intros Hcheck Hf Hreg.
  destruct (admin_register_cases generate_password_hash faults salt admins
              (BodyObject (Val u) (Val e) (Val p)))
    as [(u' & e0 & p' & Hd & Hu & _ & Hp & Hnu & _ & Heq)|(r & Hr & Heq)];
    rewrite Heq in Hreg; simplify_eq.
  exists (fresh_id (Admin.id <$> admins)). split; [|split].
  - unfold admin_login_api.
    rewrite (proj2 (given_Some (Val u') u') (conj eq_refl Hu)).
    rewrite (proj2 (given_Some (Val p') p') (conj eq_refl Hp)).
    rewrite Hf, list_find_snoc;
      [|by apply (list_find_None (λ a, Admin.username a = u')), list_find_absent
       |done].
    simpl. by rewrite Hcheck.
  - rewrite fmap_app. apply elem_of_app. right. apply list_elem_of_here.
  - apply fresh_id_new.
Qed.

(** X29.  A login is answered 200 only for an account of the table that
    carries the username of the request and whose hash checks against the
    password of the request; the identity of the token and the [admin_id]
    of the answer are the id of that account.  An unknown username and a
    wrong password are both answered 401. *)
Theorem admin_login_sound
    (check_password_hash : string → string → bool)
    (faults : admin_op → bool) (admins : list Admin.t) (data : AdminBody) :
  (∀ identity id name,
     admin_login_api check_password_hash faults admins data
       = LoggedIn identity id name →
     identity = id ∧
     ∃ a e p, a ∈ admins ∧ Admin.id a = id ∧ Admin.username a = name ∧
       data = BodyObject (Val name) e (Val p) ∧
       check_password_hash (Admin.password_hash a) p = true) ∧
  (∀ u e p, data = BodyObject (Val u) e (Val p) → u ≠ "" → p ≠ "" →
     faults AQueryUsername = false →
     (u ∉ (Admin.username <$> admins) ∨
      ∀ a, a ∈ admins → Admin.username a = u →
           check_password_hash (Admin.password_hash a) p = false) →
     admin_login_api check_password_hash faults admins data
       = InvalidCredentials ∧
     login_code InvalidCredentials = 401).
Proof.
  split; [intros identity id name; apply admin_login_logged_in|].
  intros u e p -> Hu Hp Hf Hbad. split; [|done]. unfold admin_login_api.
    rewrite (proj2 (given_Some (Val u) u) (conj eq_refl Hu)).
    rewrite (proj2 (given_Some (Val p) p) (conj eq_refl Hp)), Hf.
    destruct (list_find _ admins) as [[i a]|] eqn:Hfind; [|done].
    apply list_find_Some in Hfind as (Hi & Hname & _).
    destruct Hbad as [Hnin|Hwrong].
    + destruct Hnin. rewrite <- Hname. apply list_elem_of_fmap_2.
      by eapply list_elem_of_lookup_2.
    + by rewrite (Hwrong a (list_elem_of_lookup_2 _ _ _ Hi) Hname).
Qed.

(** X30.  The three handlers fit together: the identity that a login
    answered 200 puts into the token is the id of an account, so
    [update_order_status] called with it passes the check of the admin,
    and with an order that exists and one of the five statuses it sets
    the status. *)
Theorem logged_in_admin_sets_status {A}
    (check_password_hash : string → string → bool)
    (lfaults : admin_op → bool) (faults : order_op → bool)
    (admins : list Admin.t) (data : AdminBody)
    (identity id : Z) (name : string)
    (db : DB.t A) (i : nat) (o : Order.t A) (new : string) :
  admin_login_api check_password_hash lfaults admins data
    = LoggedIn identity id name →
  orders_ok faults → order_by_id db (Order.id o) = Some (i, o) →
  new ∈ valid_statuses →
  put_order_status faults admins db identity (Order.id o)
    (StatusObject (Val (JString new)))
  = (StatusUpdated (Order.id o) (Order.status o) new,
     with_orders (λ os, <[i := set_status new o]> os) db).
Proof.
  intros Hlogin Hok Ho Hnew.
  apply admin_login_logged_in in Hlogin as (-> & a & _ & _ & Ha & <- & _).
  apply put_order_status_ok; try done. by apply list_elem_of_fmap_2.
Qed.

(** ** Examples *)

Lemma no_admin_faults_ok : admins_ok no_admin_faults.
Proof. done. Qed.

Lemma root_unique : admins_unique [root].
Proof. repeat split; simpl; repeat constructor; by intros ?%elem_of_nil. Qed.

(** X26 on Bob's registration next to the first account. *)
Lemma admin_register_unique_example :
  admins_unique (admin_register plain_hash no_admin_faults "salt" [root] bob).2.
Proof.
  refine (admin_register_keeps_unique plain_hash no_admin_faults "salt" [root]
            bob _).
  apply root_unique.
Defined.

(** X27: the username "admin" is taken. *)
Lemma admin_register_taken_example :
  admin_register plain_hash no_admin_faults "salt" [root]
    (BodyObject (Val "admin") (Val "eve@example.com") (Val "guess"))
  = (UsernameExists, [root]).
Proof.
  refine (proj1 (admin_register_taken plain_hash no_admin_faults "salt" [root]
            "admin" "eve@example.com" "guess" _ _ _ _) _).
  - apply no_admin_faults_ok.
  - done.
  - done.
  - done.
  - apply list_elem_of_here.
Defined.

(** X28: Bob registers and logs in. *)
Lemma register_then_login_example :
  ∃ id,
    admin_login_api plain_check no_admin_faults
      (admin_register plain_hash no_admin_faults "salt" [root] bob).2
      (BodyObject (Val "bob") Absent (Val "secret")) = LoggedIn id id "bob" ∧
    id ∈ (Admin.id <$>
            (admin_register plain_hash no_admin_faults "salt" [root] bob).2) ∧
    id ∉ (Admin.id <$> [root]).
Proof.
  refine (register_then_login plain_hash plain_check no_admin_faults
            no_admin_faults "salt" [root] _ "bob" "bob@example.com" "secret"
            Absent _ _ _).
  - intros salt p. unfold plain_check, plain_hash. by apply bool_decide_eq_true.
  - reflexivity.
  - reflexivity.
Defined.

(** X29: a wrong password for "admin" is answered 401. *)
Lemma admin_login_example :
  admin_login_api plain_check no_admin_faults [root]
    (BodyObject (Val "admin") Absent (Val "guess")) = InvalidCredentials ∧
  login_code InvalidCredentials = 401.
Proof.
  refine (proj2 (admin_login_sound plain_check no_admin_faults [root]
            (BodyObject (Val "admin") Absent (Val "guess")))
          "admin" Absent "guess" _ _ _ _ _).
  - reflexivity.
  - done.
  - done.
  - reflexivity.
  - right. intros a ->%list_elem_of_singleton _. reflexivity.
Defined.

(** X30: the first account logs in and confirms the order of
    [shop_with_order]. *)
Lemma logged_in_admin_example :
  put_order_status no_order_faults [root] shop_with_order 1 1
    (StatusObject (Val (JString "confirmed")))
  = (StatusUpdated 1 "pending" "confirmed",
     with_orders (λ os, set_status "confirmed" <$> os) shop_with_order).
Proof.
  refine (logged_in_admin_sets_status plain_check no_admin_faults
            no_order_faults [root]
            (BodyObject (Val "admin") Absent (Val "admin123")) 1 1 "admin"
            shop_with_order 0%nat (order_row (order_of [line 1 3 10]) 1 1 30)
            "confirmed" _ _ _ _).
  - reflexivity.
  - apply no_order_faults_ok.
  - reflexivity.
  - apply elem_of_cons. right. apply list_elem_of_here.
Defined.
